(** * hgt_analysis: a shallow embedding of the benchmarking scripts

    The repository holds four Python 2 scripts.  This development embeds
    three of them -- [parse_output.py], [reformat_input.py] and
    [compute_accuracy.py] -- as Rocq functions and proves what they do.

    Conventions of the embedding:
    - a Python [str] is a [string]; a text file opened for reading is the
      list of its lines, each with its line terminator;
    - an exception is a value of [exn]; code that may raise returns [res];
    - code that writes to standard output or to files threads that state
      explicitly ([M]);
    - a [dict] whose iteration order matters is an association list, a [dict]
      that is only looked up is a [gmap], a [set] is a [gset];
    - a Python [float] is an IEEE-754 binary64 number ([spec_float]). *)

From Stdlib Require Import ZArith Lia Ascii String List Bool SpecFloat DecimalString.
From stdpp Require Import base option list gmap strings sets.

Set Default Proof Using "Type".
#[local] Set Warnings "-clear-no-such-hyp".

(** ** Part I: the programs *)

(** *** Python primitives used by the scripts *)

Module Py.

(** The exceptions the scripts can raise. *)
Inductive exn : Type :=
| ZeroDivisionError
| ValueError (msg : string)
| IndexError
| NameError (name : string)
| AttributeError
| StopIteration
| KeyError
| OSError.

(** The outcome of code that may raise. *)
Inductive res (A : Type) : Type :=
| Ok (a : A)
| Raise (e : exn).
Arguments Ok {A} a.
Arguments Raise {A} e.

Definition rbind {A B} (m : res A) (k : A -> res B) : res B :=
  match m with
  | Ok a => k a
  | Raise e => Raise e
  end.

(** Code with effects on a state [St] (standard output, the file system):
    the state is kept when an exception is raised, as the writes made before
    the exception stay made. *)
Definition M (St A : Type) : Type := St -> St * res A.

Definition ret {St A} (a : A) : M St A := fun s => (s, Ok a).
Definition raise {St A} (e : exn) : M St A := fun s => (s, Raise e).
Definition bind {St A B} (m : M St A) (k : A -> M St B) : M St B :=
  fun s => match m s with
           | (s', Ok a) => k a s'
           | (s', Raise e) => (s', Raise e)
           end.
Definition lift {St A} (r : res A) : M St A := fun s => (s, r).

Declare Scope py_scope.
Delimit Scope py_scope with py.
Notation "x <- m ;; k" := (bind m (fun x : _ => k))
  (at level 20, m at level 99, k at level 200, only parsing) : py_scope.
Notation "m ;; k" := (bind m (fun _ : _ => k))
  (at level 100, k at level 200, right associativity, only parsing) : py_scope.
Notation "x <-? m ;; k" := (rbind m (fun x : _ => k))
  (at level 20, m at level 99, k at level 200, only parsing) : py_scope.

(** [for x in xs: body], the loop carrying the variables [acc]. *)
Fixpoint for_in {St A B} (xs : list A) (body : B -> A -> M St B) (acc : B)
  : M St B :=
  match xs with
  | [] => ret acc
  | x :: xs' => bind (body acc x) (for_in xs' body)
  end.

Fixpoint rfor_in {A B} (xs : list A) (body : B -> A -> res B) (acc : B)
  : res B :=
  match xs with
  | [] => Ok acc
  | x :: xs' => rbind (body acc x) (rfor_in xs' body)
  end.

(** [sys.stdout.write]: standard output is the text written so far. *)
Definition stdout_write (s : string) : M string unit :=
  fun out => (out +:+ s, Ok tt).

(** [l[i]] on a list. *)
Definition index {A} (l : list A) (i : nat) : res A :=
  match l !! i with
  | Some x => Ok x
  | None => Raise IndexError
  end.

(** **** Strings *)

(** The tab and the line feed. *)
Definition tab : string := String "009"%char EmptyString.
Definition nl : string := String "010"%char EmptyString.

(** The whitespace of [str.split()] and [str.strip()] on a byte string:
    space, tab, line feed, vertical tab, form feed, carriage return. *)
Definition isspace (c : ascii) : bool :=
  match c with
  | " "%char | "009"%char | "010"%char | "011"%char | "012"%char
  | "013"%char => true
  | _ => false
  end.

(** [s.split()]: the maximal runs of characters that are not whitespace. *)
Fixpoint split (s : string) : list string :=
  match s with
  | EmptyString => []
  | String c s' =>
      if isspace c then split s'
      else match s' with
           | EmptyString => [String c EmptyString]
           | String c' _ =>
               if isspace c' then String c EmptyString :: split s'
               else match split s' with
                    | w :: ws => String c w :: ws
                    | [] => [String c EmptyString]
                    end
           end
  end.

Fixpoint lstrip (s : string) : string :=
  match s with
  | EmptyString => EmptyString
  | String c s' => if isspace c then lstrip s' else s
  end.

Fixpoint rstrip (s : string) : string :=
  match s with
  | EmptyString => EmptyString
  | String c s' =>
      match rstrip s' with
      | EmptyString => if isspace c then EmptyString else String c EmptyString
      | r => String c r
      end
  end.

(** [s.strip()] *)
Definition strip (s : string) : string := rstrip (lstrip s).

(** [s.startswith(p)] *)
Fixpoint startswith (p s : string) : bool :=
  match p, s with
  | EmptyString, _ => true
  | String a p', String b s' => if Ascii.eqb a b then startswith p' s' else false
  | String _ _, EmptyString => false
  end.

(** [sub in s] *)
Fixpoint contains (sub s : string) : bool :=
  startswith sub s ||
  match s with
  | EmptyString => false
  | String _ s' => contains sub s'
  end.

(** [s.split(sep)] for a separator that is not empty: the pieces between the
    occurrences of [sep], found from left to right without overlap.  [skip]
    counts the characters of an occurrence that are still to be passed. *)
Fixpoint split_skip (sep : string) (skip : nat) (s : string) : list string :=
  match s with
  | EmptyString => [EmptyString]
  | String c s' =>
      match skip with
      | S k => split_skip sep k s'
      | O =>
          if startswith sep s
          then EmptyString :: split_skip sep (String.length sep - 1) s'
          else match split_skip sep 0 s' with
               | w :: ws => String c w :: ws
               | [] => [String c EmptyString]
               end
      end
  end.

Definition split_on (sep s : string) : list string := split_skip sep 0 s.

(** [sep.join(l)] *)
Fixpoint join (sep : string) (l : list string) : string :=
  match l with
  | [] => EmptyString
  | [x] => x
  | x :: l' => x +:+ sep +:+ join sep l'
  end.

(** [string.replace(s, old, new)] for [old] not empty. *)
Definition replace (s old new : string) : string := join new (split_on old s).

(** [s[:-1]] and [s[:-2]]: the string without its last [n] characters. *)
Definition drop_last (n : nat) (s : string) : string :=
  String.substring 0 (String.length s - n) s.



End Py.

Import Py.
Local Open Scope py_scope.

(** *** parse_output.py *)

Module ParseOutput.

Definition trex_string : string := "hgt : number of HGT(s) found = ".
Definition rangerdtl_string : string := "The minimum reconciliation cost is: ".
Definition riatahgt_string : string := "There are ".
Definition jane4_string : string := "Host Switch: ".

(** [parse_trex]: every line that contains the anchor has the text after it
    written at once; [out_str] records that something was written. *)
Definition parse_trex (input_f : list string) : M string unit :=
  out_str <-
    for_in input_f
      (fun out_str line =>
         if contains trex_string line then
           number_hgts <- lift (x <-? index (split_on trex_string line) 1 ;;
                                Ok (strip x)) ;;
           stdout_write number_hgts ;;
           ret true
         else ret out_str)
      false ;;
  if negb out_str then stdout_write "NaN" else ret tt.

Definition parse_rangerdtl (input_f : list string) : M string unit :=
  out_str <-
    for_in input_f
      (fun out_str line =>
         if contains rangerdtl_string line then
           number_hgts <- lift (x <-? index (split_on "Transfers: " line) 1 ;;
                                index (split_on "," x) 0) ;;
           stdout_write number_hgts ;;
           ret true
         else ret out_str)
      false ;;
  if negb out_str then stdout_write "NaN" else ret tt.

Definition parse_riatahgt (input_f : list string) : M string unit :=
  out_str <-
    for_in input_f
      (fun out_str line =>
         if contains riatahgt_string line then
           number_hgts <- lift (x <-? index (split_on riatahgt_string line) 1 ;;
                                index (split_on " component(s)" x) 0) ;;
           stdout_write number_hgts ;;
           ret true
         else ret out_str)
      false ;;
  if negb out_str then stdout_write "NaN" else ret tt.

Definition parse_jane4 (input_f : list string) : M string unit :=
  out_str <-
    for_in input_f
      (fun out_str line =>
         if contains jane4_string line then
           number_hgts <- lift (x <-? index (split_on jane4_string line) 1 ;;
                                Ok (strip x)) ;;
           stdout_write number_hgts ;;
           ret true
         else ret out_str)
      false ;;
  if negb out_str then stdout_write "NaN" else ret tt.

(** The identifiers [click.Choice] lets through to [_main]. *)
Definition methods : list string :=
  ["trex"; "ranger-dtl"; "riata-hgt"; "consel"; "darkhorse"; "wn-svm";
   "genemark"; "hgtector"; "distance-method"; "jane4"; "tree-puzzle"].

(** [_main]: the results file is open as [input_f].  The module defines no
    [parse_consel], so the call in the last branch fails when the name is
    looked up. *)
Definition _main (input_f : list string) (method : string) : M string unit :=
  if String.eqb method "ranger-dtl" then parse_rangerdtl input_f
  else if String.eqb method "trex" then parse_trex input_f
  else if String.eqb method "riata-hgt" then parse_riatahgt input_f
  else if String.eqb method "jane4" then parse_jane4 input_f
  else if String.eqb method "consel" then raise (NameError "parse_consel")
  else ret tt.

(** **** What the parsers write, for the statements below *)

(** The text after the anchor that a parser extracts from a line. *)
Definition trex_after (line : string) : string :=
  strip (nth 1 (split_on trex_string line) "").
Definition jane4_after (line : string) : string :=
  strip (nth 1 (split_on jane4_string line) "").
Definition riatahgt_after (line : string) : string :=
  nth 0 (split_on " component(s)" (nth 1 (split_on riatahgt_string line) "")) "".
Definition rangerdtl_after (line : string) : string :=
  nth 0 (split_on "," (nth 1 (split_on "Transfers: " line) "")) "".

(** The extracted texts of all the lines that contain the anchor, one after
    another in the order of the file, or [NaN] when no line contains it. *)
Definition all_matches (anchor : string) (after : string -> string)
    (input_f : list string) : string :=
  match List.filter (contains anchor) input_f with
  | [] => "NaN"
  | ls => String.concat "" (map after ls)
  end.

(** The extracted text of the first line that contains the anchor, or [NaN]:
    the output in the words of the specification. *)
Definition first_match (anchor : string) (after : string -> string)
    (input_f : list string) : string :=
  match List.filter (contains anchor) input_f with
  | [] => "NaN"
  | line :: _ => after line
  end.

(** The identifiers with a parsing function of their own. *)
Definition implemented : list string :=
  ["trex"; "ranger-dtl"; "riata-hgt"; "jane4"].

End ParseOutput.

(** *** reformat_input.py *)

Module ReformatInput.

(** [skbio.TreeNode], as far as the script uses it: a node has a name (or
    [None]), a branch length (or [None]) and its children in order. *)
#[warnings="-register-all"]
Inductive TreeNode : Type :=
| Node (name : option string) (length : option spec_float)
       (children : list TreeNode).

Definition name (t : TreeNode) : option string :=
  match t with Node n _ _ => n end.
Definition children (t : TreeNode) : list TreeNode :=
  match t with Node _ _ cs => cs end.

(** The nodes without children at or below [t], from left to right. *)
Fixpoint leaves (t : TreeNode) : list TreeNode :=
  match t with
  | Node _ _ [] => [t]
  | Node _ _ cs => flat_map leaves cs
  end.

(** [tree.tips()]: skbio iterates over the tips that descend from the root,
    the root itself left out (a tree that is a single node has no tips). *)
Definition tips (tree : TreeNode) : list TreeNode :=
  flat_map leaves (children tree).

(** [str(x)] for a node name. *)
Definition str_name (n : option string) : string :=
  match n with
  | Some s => s
  | None => "None"
  end.

(** [name.split()[0]], the new name of a tip. *)
Definition trim_name (n : option string) : res (option string) :=
  match n with
  | None => Raise AttributeError
  | Some s => x <-? index (split s) 0 ;; Ok (Some x)
  end.

(** The tips at or below a node renamed from left to right; the first name
    that cannot be trimmed raises. *)
Fixpoint trim_below (t : TreeNode) : res TreeNode :=
  match t with
  | Node n l [] => n' <-? trim_name n ;; Ok (Node n' l [])
  | Node n l cs =>
      cs' <-? (fix go (ts : list TreeNode) : res (list TreeNode) :=
                 match ts with
                 | [] => Ok []
                 | c :: ts' =>
                     c' <-? trim_below c ;;
                     ts'' <-? go ts' ;;
                     Ok (c' :: ts'')
                 end) cs ;;
      Ok (Node n l cs')
  end.

Fixpoint trim_all (ts : list TreeNode) : res (list TreeNode) :=
  match ts with
  | [] => Ok []
  | c :: ts' =>
      c' <-? trim_below c ;;
      ts'' <-? trim_all ts' ;;
      Ok (c' :: ts'')
  end.

(** [trim_gene_tree_leaves]: [gene_tree.find(node)] is [node] itself, so each
    tip gets the first whitespace-separated token of its name.  The result
    is the tree as mutated. *)
Definition trim_gene_tree_leaves (gene_tree : TreeNode) : res TreeNode :=
  match gene_tree with
  | Node n l cs => cs' <-? trim_all cs ;; Ok (Node n l cs')
  end.

(** A [dict] in the order its keys were inserted. *)
Definition dict (K V : Type) : Type := list (K * V).

Fixpoint dict_get {K V} `{EqDecision K} (k : K) (d : dict K V) : option V :=
  match d with
  | [] => None
  | (k', v) :: d' => if decide (k' = k) then Some v else dict_get k d'
  end.

(** [d[k] = v] *)
Fixpoint dict_set {K V} `{EqDecision K} (k : K) (v : V) (d : dict K V)
  : dict K V :=
  match d with
  | [] => [(k, v)]
  | (k', v') :: d' =>
      if decide (k' = k) then (k, v) :: d' else (k', v') :: dict_set k v d'
  end.

(** [species, gene = name.split()] *)
Definition unpack2 (n : option string) : res (string * string) :=
  match n with
  | None => Raise AttributeError
  | Some s =>
      match split s with
      | [species; gene] => Ok (species, gene)
      | [] => Raise (ValueError "need more than 0 values to unpack")
      | [_] => Raise (ValueError "need more than 1 value to unpack")
      | _ => Raise (ValueError "too many values to unpack")
      end
  end.

(** [species_gene_mapping]: note that the second loop appends [species],
    not [gene], to the list of the species. *)
Definition species_gene_mapping (gene_tree species_tree : TreeNode)
  : res (dict (option string) (list string)) :=
  mapping_leaves <-?
    rfor_in (tips species_tree)
      (fun mapping_leaves node =>
         match dict_get (name node) mapping_leaves with
         | None => Ok (dict_set (name node) [] mapping_leaves)
         | Some _ =>
             Raise (ValueError
                      ("Species tree leaves must be uniquely labeled: "
                       +:+ str_name (name node)))
         end)
      [] ;;
  rfor_in (tips gene_tree)
    (fun mapping_leaves node =>
       sg <-? unpack2 (name node) ;;
       let '(species, gene) := sg in
       match dict_get (Some species) mapping_leaves with
       | Some l => Ok (dict_set (Some species) (l ++ [species]) mapping_leaves)
       | None =>
           Raise (ValueError
                    ("Species " +:+ species
                     +:+ " does not exist in the species tree"))
       end)
    mapping_leaves.

(** The loop of [reformat_jane4] that builds [mapping_str], over the items
    of [mapping_dict] in the order the dict yields them. *)
Definition build_mapping_str (mapping_dict : dict (option string) (list string))
  : string :=
  fold_left
    (fun mapping_str '(species, genes) =>
       fold_left
         (fun mapping_str gene =>
            mapping_str +:+ str_name species +:+ ":" +:+ gene +:+ ", ")
         genes mapping_str)
    mapping_dict "".

(** The text that replaces [MAPPING]: [mapping_str[:-2]]. *)
Definition jane4_mapping (gene_tree species_tree : TreeNode) : res string :=
  mapping_dict <-? species_gene_mapping gene_tree species_tree ;;
  Ok (drop_last 2 (build_mapping_str mapping_dict)).

(** [node.length = None] for every node. *)
Fixpoint strip_lengths (t : TreeNode) : TreeNode :=
  match t with
  | Node n _ cs => Node n None (map strip_lengths cs)
  end.

Definition riatahgt_nexus_file : string :=
  "#NEXUS" +:+ nl +:+
  "BEGIN TREES;" +:+ nl +:+
  "Tree speciesTree = SPECIES_TREE" +:+ nl +:+
  "Tree geneTree = GENE_TREE" +:+ nl +:+
  "END;" +:+ nl +:+
  "BEGIN PHYLONET;" +:+ nl +:+
  "RIATAHGT speciesTree {geneTree};" +:+ nl +:+
  "END;" +:+ nl +:+
  "    ".

Definition jane4_nexus_file : string :=
  "#NEXUS" +:+ nl +:+
  "begin host;" +:+ nl +:+
  "tree host = SPECIES_TREE" +:+ nl +:+
  "endblock;" +:+ nl +:+
  "begin parasite;" +:+ nl +:+
  "tree parasite = GENE_TREE" +:+ nl +:+
  "endblock;" +:+ nl +:+
  "begin distribution;" +:+ nl +:+
  "Range MAPPING;" +:+ nl +:+
  "endblock;" +:+ nl +:+
  "    ".

(** The file system: the content of each existing file, by path. *)
Abbreviation files := (gmap string string).

(** [with open(fp, 'w') as f: f.write(s)] *)
Definition write_file (fp s : string) : M files unit :=
  fun fs => (<[fp := s]> fs, Ok tt).

(** [os.remove(fp)] *)
Definition remove (fp : string) : M files unit :=
  fun fs => match fs !! fp with
            | Some _ => (delete fp fs, Ok tt)
            | None => (fs, Raise OSError)
            end.

Section Newick.

(** [str(tree)], skbio's Newick text of a tree, is not part of the script:
    the functions below are given it. *)
Variable str : TreeNode -> string.

Definition join_trees (gene_tree species_tree : TreeNode)
    (output_tree_fp : string) : M files unit :=
  write_file output_tree_fp
    (drop_last 1 (str species_tree) +:+ nl +:+
     drop_last 1 (str gene_tree) +:+ nl).

Definition reformat_rangerdtl (gene_tree species_tree : TreeNode)
    (output_tree_fp : string) : M files unit :=
  join_trees gene_tree species_tree output_tree_fp.

(** [reformat_trex].  [abs_path] is the path [mkstemp()] returns, the choice
    of the operating system; [mkstemp] creates that file empty.  The names
    [tmp_gene_tree] and [tmp_gene_tree_fp] are bound nowhere: evaluating
    them raises [NameError]. *)
Definition reformat_trex (gene_tree species_tree : TreeNode)
    (output_tree_fp : string) (abs_path : string) : M files unit :=
  gene_tree <- lift (trim_gene_tree_leaves gene_tree) ;;
  write_file abs_path "" ;;
  write_file abs_path (str gene_tree) ;;
  tmp_gene_tree <- raise (NameError "tmp_gene_tree") ;;
  join_trees tmp_gene_tree species_tree output_tree_fp ;;
  tmp_gene_tree_fp <- raise (NameError "tmp_gene_tree_fp") ;;
  remove tmp_gene_tree_fp.

Definition reformat_riatahgt (gene_tree species_tree : TreeNode)
    (output_tree_fp : string) : M files unit :=
  gene_tree <- lift (trim_gene_tree_leaves gene_tree) ;;
  let p := replace riatahgt_nexus_file "SPECIES_TREE" (str species_tree) in
  let p := replace p "GENE_TREE" (str gene_tree) in
  write_file output_tree_fp p.

Definition reformat_jane4 (gene_tree species_tree : TreeNode)
    (output_tree_fp : string) : M files unit :=
  mapping_dict <- lift (species_gene_mapping gene_tree species_tree) ;;
  gene_tree <- lift (trim_gene_tree_leaves gene_tree) ;;
  let gene_tree := strip_lengths gene_tree in
  let species_tree := strip_lengths species_tree in
  let mapping_str := build_mapping_str mapping_dict in
  let p := replace jane4_nexus_file "SPECIES_TREE" (str species_tree) in
  let p := replace p "GENE_TREE" (str gene_tree) in
  let p := replace p "MAPPING" (drop_last 2 mapping_str) in
  write_file output_tree_fp p.

End Newick.

(** **** Notions for the statements below *)

(** The names of the tips of a tree, from left to right. *)
Definition tip_names (tree : TreeNode) : list (option string) :=
  map name (tips tree).

(** A string without whitespace. *)
Fixpoint token (s : string) : bool :=
  match s with
  | EmptyString => true
  | String c s' => negb (isspace c) && token s'
  end.

(** A gene leaf resolves when its name splits into exactly two tokens, the
    first of which names a leaf of the species tree. *)
Definition resolves (species : list (option string)) (n : option string)
  : bool :=
  match n with
  | Some s =>
      match split s with
      | [sp; _] => bool_decide (Some sp ∈ species)
      | _ => false
      end
  | None => false
  end.

(** **** More of the script *)


(** The pairs [species:gene] of a mapping, in the order of
    [build_mapping_str]. *)
Definition mapping_pairs (mapping_dict : dict (option string) (list string))
  : list string :=
  flat_map (fun '(species, genes) =>
              map (fun gene => str_name species +:+ ":" +:+ gene) genes)
           mapping_dict.

(** The first whitespace-separated token of a name, if it has one. *)
Definition first_token (n : option string) : option string :=
  match n with
  | Some s => head (split s)
  | None => None
  end.

End ReformatInput.

(** *** compute_accuracy.py *)

Module ComputeAccuracy.

(** **** Floats *)

(** A Python [float] is a binary64 number. *)
Definition float : Type := spec_float.
Definition prec : Z := 53.
Definition emax : Z := 1024.

(** [float(n)] for an [int]: the nearest binary64 number.  (Python raises
    [OverflowError] for an [int] beyond the range of binary64, about 1.8e308;
    the script converts the sizes of sets only.) *)
Definition float_of_Z (n : Z) : float := binary_normalize prec emax n 0 false.
Definition float_of_nat (n : nat) : float := float_of_Z (Z.of_nat n).

Definition is_zero (x : float) : bool :=
  match x with
  | S754_zero _ => true
  | _ => false
  end.

(** [x / y] on floats: a zero divisor raises, whatever [x] is. *)
Definition float_div (x y : float) : res float :=
  if is_zero y then Raise ZeroDivisionError else Ok (SFdiv prec emax x y).

Definition float_mul (x y : float) : float := SFmul prec emax x y.
Definition float_add (x y : float) : float := SFadd prec emax x y.

(** The integer nearest to [num / den], the even one of two that are equally
    near ([0 <= num], [0 < den]). *)
Definition round_half_even (num den : Z) : Z :=
  let q := (num / den)%Z in
  let r := (num mod den)%Z in
  match (2 * r ?= den)%Z with
  | Lt => q
  | Gt => (q + 1)%Z
  | Eq => if Z.even q then q else (q + 1)%Z
  end.

(** [m * 2^e] in hundredths, rounded. *)
Definition hundredths (m : positive) (e : Z) : Z :=
  match e with
  | Zneg k => round_half_even (Zpos m * 100) (2 ^ Zpos k)
  | _ => (Zpos m * 100 * 2 ^ e)%Z
  end.

Definition decimal (n : Z) : string :=
  DecimalString.NilZero.string_of_uint (N.to_uint (Z.to_N n)).

Definition fixed2 (negative : bool) (h : Z) : string :=
  (if negative then "-" else "") +:+
  decimal (h / 100) +:+ "." +:+
  (if (h mod 100 <? 10)%Z then "0" else "") +:+ decimal (h mod 100).

(** ["%.2f" % x]: the decimal with two fractional digits nearest to the
    value of [x].  (For [1e50 <= |x|] Python 2 changes to the [%g] form; the
    numbers formatted by the script are quotients of counts.) *)
Definition format_2f (x : float) : string :=
  match x with
  | S754_nan => "nan"
  | S754_infinity s => if s then "-inf" else "inf"
  | S754_zero s => fixed2 s 0
  | S754_finite s m e => fixed2 s (hundredths m e)
  end.

(** **** The script *)

(** A transfer: (organism donor, gene donated, organism recipient,
    gene received). *)
Definition transfer : Type := string * string * string * string.

(** [tup[1]] *)
Definition gene_donated (tup : transfer) : string :=
  match tup with (_, gene, _, _) => gene end.

(** [int(s)] for a decimal literal: optional whitespace around an optional
    sign and at least one digit. *)
Definition digit (c : ascii) : option Z :=
  let n := nat_of_ascii c in
  if (48 <=? n)%nat && (n <=? 57)%nat then Some (Z.of_nat (n - 48)) else None.

Fixpoint digits (acc : Z) (s : string) : option Z :=
  match s with
  | EmptyString => Some acc
  | String c s' =>
      match digit c with
      | Some d => digits (10 * acc + d) s'
      | None => None
      end
  end.

Definition unsigned (s : string) : option Z :=
  match s with
  | EmptyString => None
  | _ => digits 0 s
  end.

Definition int (s : string) : res Z :=
  let r :=
    match strip s with
    | String "-"%char s' => Z.opp <$> unsigned s'
    | String "+"%char s' => unsigned s'
    | s' => unsigned s'
    end in
  match r with
  | Some z => Ok z
  | None => Raise (ValueError ("invalid literal for int() with base 10: " +:+ s))
  end.

(** The body of the inner loop of [parse_observed_transfers]: the test on
    [int(hgt_num)] comes first, [tools_id[i]] is read only for a detection. *)
Definition record_flag (tools_id : list string) (gene_id : string)
    (st : gmap string (list string) * nat) (hgt_num : string)
  : res (gmap string (list string) * nat) :=
  let '(tools, i) := st in
  n <-? int hgt_num ;;
  if (0 <? n)%Z then
    tool <-? index tools_id i ;;
    match tools !! tool with
    | Some genes => Ok (<[tool := genes ++ [gene_id]]> tools, S i)
    | None => Raise KeyError
    end
  else Ok (tools, S i).

(** The body of the outer loop, on the loop variables [(tools, tools_id)]. *)
Definition parse_line (st : gmap string (list string) * list string)
    (line : string) : res (gmap string (list string) * list string) :=
  let '(tools, tools_id) := st in
  let line := split_on tab (strip line) in
  line0 <-? index line 0 ;;
  if startswith "#" line0 then
    Ok (fold_left
          (fun '(tools, tools_id) tool =>
             (match tools !! tool with
              | None => <[tool := []]> tools
              | Some _ => tools
              end,
              tools_id ++ [tool]))
          (drop 2 line) (tools, tools_id))
  else
    gene_id <-? index line 1 ;;
    ti <-? rfor_in (drop 2 line) (record_flag tools_id gene_id) (tools, 0%nat) ;;
    Ok (fst ti, tools_id).

(** [parse_observed_transfers]: [next(observed_hgts_f)] drops the first line
    (and raises on a file without lines). *)
Definition parse_observed_transfers (observed_hgts_f : list string)
  : res (gmap string (list string)) :=
  match observed_hgts_f with
  | [] => Raise StopIteration
  | _ :: rest =>
      st <-? rfor_in rest parse_line (∅, []) ;;
      Ok (fst st)
  end.

(** The first loop of [compute_accuracy]: [exp_s.add(tup[1])] for every
    expected transfer. *)
Definition exp_set (expected_transfers : list transfer) : gset string :=
  fold_left (fun exp_s tup => exp_s ∪ {[gene_donated tup]})
            expected_transfers ∅.

(** The body of the second loop of [compute_accuracy], for one item
    [(tool, genes)] of [observed_transfers]. *)
Definition score_tool (exp_s : gset string) (tool : string)
    (genes : list string) : M string unit :=
  let obs_s : gset string := list_to_set genes in
  if decide (obs_s = ∅) then ret tt
  else
    let tp := size (obs_s ∩ exp_s) in
    let fp := size (obs_s ∖ exp_s) in
    let fn := size (exp_s ∖ obs_s) in
    p <- lift (float_div (float_of_nat tp) (float_of_nat (tp + fp))) ;;
    r <- lift (float_div (float_of_nat tp) (float_of_nat (tp + fn))) ;;
    f <- lift (float_div (float_mul (float_mul (float_of_Z 2) p) r)
                         (float_add p r)) ;;
    stdout_write (tool +:+ tab +:+ format_2f p +:+ tab +:+ format_2f r
                  +:+ tab +:+ format_2f f +:+ nl).

(** [compute_accuracy]: [observed_transfers] is the dict as the list of its
    items in the order the loop meets them. *)
Definition compute_accuracy (expected_transfers : list transfer)
    (observed_transfers : list (string * list string)) : M string unit :=
  let exp_s := exp_set expected_transfers in
  for_in observed_transfers
    (fun _ '(tool, genes) => score_tool exp_s tool genes)
    tt.

(** **** Notions for the statements below *)

(** A data row of the summary table: its gene identifier and the integers of
    its tool columns. *)
Record row : Type := { row_gene : string; row_flags : list Z }.

(** [line] is the header that names the tool columns [tools]. *)
Definition header_of (line : string) (tools : list string) : Prop :=
  exists h0 h1,
    split_on tab (strip line) = h0 :: h1 :: tools /\ startswith "#" h0 = true.

(** [line] is the data row [r]: a first column that does not start with [#],
    the gene identifier in the second column, then one integer literal per
    flag. *)
Definition row_of (line : string) (r : row) : Prop :=
  exists idx raw,
    split_on tab (strip line) = idx :: row_gene r :: raw /\
    startswith "#" idx = false /\
    Forall2 (fun s z => int s = Ok z) raw (row_flags r).

(** The integer in tool column [i] of a row is greater than zero. *)
Definition flagged (i : nat) (r : row) : bool :=
  match row_flags r !! i with
  | Some z => (0 <? z)%Z
  | None => false
  end.

(** The genes of the rows flagged in column [i], in the order of the rows. *)
Definition detected (i : nat) (rows : list row) : list string :=
  map row_gene (List.filter (flagged i) rows).

(** **** The metrics in the words of the specification *)

(** The genes a tool detected, and the genes donated in the expected
    transfers, as sets. *)
Definition detected_set (genes : list string) : gset string :=
  list_to_set genes.
Definition expected_genes (expected_transfers : list transfer) : gset string :=
  list_to_set (map gene_donated expected_transfers).

Definition true_positives (genes : list string) (expected : list transfer)
  : nat := size (detected_set genes ∩ expected_genes expected).
Definition false_positives (genes : list string) (expected : list transfer)
  : nat := size (detected_set genes ∖ expected_genes expected).
Definition false_negatives (genes : list string) (expected : list transfer)
  : nat := size (expected_genes expected ∖ detected_set genes).

(** The three quotients, as IEEE quotients (no exception). *)
Definition precision (genes : list string) (expected : list transfer) : float :=
  SFdiv prec emax
    (float_of_nat (true_positives genes expected))
    (float_of_nat (true_positives genes expected + false_positives genes expected)).
Definition recall (genes : list string) (expected : list transfer) : float :=
  SFdiv prec emax
    (float_of_nat (true_positives genes expected))
    (float_of_nat (true_positives genes expected + false_negatives genes expected)).
Definition f_score (genes : list string) (expected : list transfer) : float :=
  SFdiv prec emax
    (float_mul (float_mul (float_of_Z 2) (precision genes expected))
               (recall genes expected))
    (float_add (precision genes expected) (recall genes expected)).

(** One of the three denominators is zero. *)
Definition zero_denominator (genes : list string) (expected : list transfer)
  : bool :=
  (true_positives genes expected + false_positives genes expected =? 0)
  || (true_positives genes expected + false_negatives genes expected =? 0)
  || is_zero (float_add (precision genes expected) (recall genes expected)).

(** The line of a tool: name, precision, recall and F-score, separated by
    tabs. *)
Definition report_line (tool : string) (genes : list string)
    (expected : list transfer) : string :=
  tool +:+ tab +:+ format_2f (precision genes expected) +:+ tab
  +:+ format_2f (recall genes expected) +:+ tab
  +:+ format_2f (f_score genes expected) +:+ nl.

Definition nonempty (item : string * list string) : bool :=
  match item.2 with
  | [] => false
  | _ => true
  end.

(** The lines of the tools with a detection, in order. *)
Definition report (expected : list transfer)
    (observed : list (string * list string)) : string :=
  String.concat ""
    (map (fun item => report_line item.1 item.2 expected)
         (List.filter nonempty observed)).

(** A tool with a detection and a zero denominator. *)
Definition faulty (expected : list transfer) (item : string * list string)
  : bool :=
  nonempty item && zero_denominator item.2 expected.

(** The items met before the first faulty one. *)
Fixpoint before_fault (expected : list transfer)
    (observed : list (string * list string)) : list (string * list string) :=
  match observed with
  | [] => []
  | item :: rest =>
      if faulty expected item then []
      else item :: before_fault expected rest
  end.

(** **** More of the script: the expected transfers *)

(** The alternatives of the pattern of [parse_expected_transfers]. *)
Definition transfer_separators : list string :=
  ["lgt from organism "; " with gene "; " to organism "; ", now gene "].

(** A match of [a1|a2|...] at the start of [s]: the first alternative, in
    the order of the pattern, that [s] starts with; the result is its
    length.  The alternatives are plain texts that are not empty. *)
Fixpoint match_alt (alts : list string) (s : string) : option nat :=
  match alts with
  | [] => None
  | a :: alts' =>
      if startswith a s then Some (String.length a) else match_alt alts' s
  end.

(** [re.split(a1|a2|..., s)]: the pieces between the matches, which are
    found from left to right without overlap.  [skip] counts the characters
    of a match that are still to be passed. *)
Fixpoint re_split_skip (alts : list string) (skip : nat) (s : string)
  : list string :=
  match s with
  | EmptyString => [EmptyString]
  | String c s' =>
      match skip with
      | S k => re_split_skip alts k s'
      | O =>
          match match_alt alts s with
          | Some n => EmptyString :: re_split_skip alts (n - 1) s'
          | None =>
              match re_split_skip alts 0 s' with
              | w :: ws => String c w :: ws
              | [] => [String c EmptyString]
              end
          end
      end
  end.

Definition re_split (alts : list string) (s : string) : list string :=
  re_split_skip alts 0 s.

(** [parse_expected_transfers]: a tuple is the list of its components. *)
Definition parse_expected_transfers (ground_truth_f : list string)
  : list (list string) :=
  fold_left
    (fun expected_transfers line =>
       if contains "lgt from organism " line then
         let content := re_split transfer_separators (strip line) in
         expected_transfers ++ [drop 1 content]
       else expected_transfers)
    ground_truth_f [].

End ComputeAccuracy.

(** ** Part II: what the programs do *)

Import ParseOutput ReformatInput ComputeAccuracy.

(** *** Facts about the primitives *)

Section PyFacts.

Context {St : Type}.

Lemma bind_ret_l {A B} (a : A) (k : A -> M St B) : bind (ret a) k = k a.
Proof. reflexivity. Qed.

Lemma for_in_app {A B} (xs ys : list A) (body : B -> A -> M St B) acc s :
  for_in (xs ++ ys) body acc s =
  match for_in xs body acc s with
  | (s', Ok acc') => for_in ys body acc' s'
  | (s', Raise e) => (s', Raise e)
  end.
Proof.
  revert acc s. induction xs as [|x xs IH]; intros acc s; simpl.
  - reflexivity.
  - unfold bind. destruct (body acc x s) as [s' [acc'|e]]; [apply IH | reflexivity].
Qed.


End PyFacts.

Lemma append_cons c (a b : string) : String c a +:+ b = String c (a +:+ b).
Proof. reflexivity. Qed.

Lemma append_empty_l (s : string) : "" +:+ s = s.
Proof. reflexivity. Qed.

Lemma append_empty_r (s : string) : s +:+ "" = s.
Proof.
  induction s as [|c s IH]; [reflexivity | now rewrite append_cons, IH].
Qed.

Lemma append_assoc (a b c : string) : (a +:+ b) +:+ c = a +:+ (b +:+ c).
Proof.
  induction a as [|x a IH]; [reflexivity | now rewrite !append_cons, IH].
Qed.

Lemma concat_cons (x : string) (xs : list string) :
  String.concat "" (x :: xs) = x +:+ String.concat "" xs.
Proof.
  destruct xs as [|y ys]; simpl; [now rewrite append_empty_r | reflexivity].
Qed.

Lemma split_skip_not_nil sep k s : split_skip sep k s <> [].
Proof.
  revert k. induction s as [|c s IH]; intros k; simpl; [discriminate|].
  destruct k as [|k]; [|apply IH].
  destruct (startswith sep (String c s)); [discriminate|].
  destruct (split_skip sep 0 s); discriminate.
Qed.

(** A string that contains a separator splits into at least two pieces, so
    [s.split(sep)[1]] is defined. *)
Lemma contains_split_on sep s :
  sep <> "" -> contains sep s = true ->
  exists a b rest, split_on sep s = a :: b :: rest.
Proof.
  intros Hsep. unfold split_on. induction s as [|c s IH]; simpl.
  - destruct sep; [congruence | discriminate].
  - destruct sep as [|c0 sep']; [congruence|].
    change (match String c0 sep' with "" => true | String a p' => if Ascii.eqb a c then startswith p' s else false end)
      with (startswith (String c0 sep') (String c s)).
    destruct (startswith (String c0 sep') (String c s)) eqn:Hp; simpl.
    + intros _.
      destruct (split_skip (String c0 sep') (String.length sep' - 0) s) as [|b rest] eqn:E.
      * now apply split_skip_not_nil in E.
      * now exists "", b, rest.
    + intros Hc. destruct (IH Hc) as (a & b & rest & ->).
      now exists (String c a), b, rest.
Qed.

Lemma split_on_hd sep s : exists a rest, split_on sep s = a :: rest.
Proof.
  destruct (split_on sep s) as [|a rest] eqn:E.
  - now apply split_skip_not_nil in E.
  - now exists a, rest.
Qed.

(** **** The string primitives against their Python meaning *)

Example split_example :
  split (" sp1" +:+ tab +:+ "g1  x" +:+ nl) = ["sp1"; "g1"; "x"] /\
  split "  " = [] /\
  strip ("  a b " +:+ nl) = "a b" /\
  split_on "," "a,b," = ["a"; "b"; ""] /\
  split_on "aa" "aaa" = [""; "a"] /\
  split_on "ab" "x" = ["x"] /\
  replace "a NAME b NAME" "NAME" "zz" = "a zz b zz" /\
  drop_last 2 "sp1:g1, " = "sp1:g1" /\
  drop_last 1 "" = "" /\
  contains "found = " "HGT(s) found = 3" = true /\
  contains "abc" "ab" = false.
Proof. repeat split. Qed.

Lemma length_append (a b : string) :
  String.length (a +:+ b) = String.length a + String.length b.
Proof.
  induction a as [|c a IH]; [reflexivity|].
  rewrite append_cons. cbn [String.length]. now rewrite IH.
Qed.

(** [s.startswith(p)] holds exactly when [s] is [p] followed by a rest. *)
Lemma startswith_prefix p s :
  startswith p s = true <-> exists r, s = p +:+ r.
Proof.
  revert s. induction p as [|a p IH]; intros s.
  - split; [intros _; exists s; reflexivity | reflexivity].
  - destruct s as [|b s]; cbn [startswith].
    + split; [discriminate | intros [r Hr]; discriminate].
    + destruct (Ascii.eqb_spec a b) as [->|Hne].
      * rewrite IH. split; intros [r Hr]; exists r.
        -- now rewrite append_cons, Hr.
        -- rewrite append_cons in Hr. now injection Hr.
      * split; [discriminate|]. intros [r Hr]. rewrite append_cons in Hr.
        injection Hr as Hab _. congruence.
Qed.

(** [sub in s] holds exactly when [sub] occurs in [s]. *)
Lemma contains_occurs sub s :
  contains sub s = true <-> exists a b, s = a +:+ sub +:+ b.
Proof.
  induction s as [|c s IH]; cbn [contains].
  - rewrite orb_false_r, startswith_prefix. split.
    + intros [r Hr]. exists "", r. exact Hr.
    + intros (a & b & H). destruct a as [|? ?]; [|discriminate].
      exists b. exact H.
  - rewrite orb_true_iff, startswith_prefix, IH. split.
    + intros [[r Hr] | (a & b & H)].
      * exists "", r. exact Hr.
      * exists (String c a), b. now rewrite append_cons, H.
    + intros (a & b & H). destruct a as [|c' a].
      * left. exists b. exact H.
      * right. rewrite append_cons in H. injection H as _ H. eauto.
Qed.

Lemma split_skip_passes sep a s :
  split_skip sep (String.length a) (a +:+ s) = split_skip sep 0 s.
Proof.
  induction a as [|c a IH]; [destruct s; reflexivity|].
  rewrite append_cons. cbn [String.length split_skip]. exact IH.
Qed.

Lemma join_cons_head sep c w ws :
  join sep (String c w :: ws) = String c (join sep (w :: ws)).
Proof. destruct ws; reflexivity. Qed.

(** Joining the pieces of [s.split(sep)] with [sep] gives [s] back. *)
Lemma join_split_on sep s : sep <> "" -> join sep (split_on sep s) = s.
Proof.
  intros Hsep. unfold split_on.
  remember (String.length s) as n eqn:Hn.
  assert (Hle : String.length s <= n) by lia. clear Hn.
  revert s Hle. induction n as [|n IH]; intros s Hle.
  - destruct s; [reflexivity | cbn in Hle; lia].
  - destruct s as [|c s]; [reflexivity|]. cbn [String.length] in Hle.
    cbn [split_skip]. destruct (startswith sep (String c s)) eqn:Hp.
    + apply startswith_prefix in Hp as [r Hr].
      destruct sep as [|c0 sep']; [congruence|].
      rewrite append_cons in Hr. injection Hr as -> ->.
      replace (String.length (String c0 sep') - 1) with (String.length sep')
        by (cbn [String.length]; lia).
      rewrite split_skip_passes.
      destruct (split_skip (String c0 sep') 0 r) as [|x xs] eqn:E;
        [now apply split_skip_not_nil in E|].
      change (join (String c0 sep') ("" :: x :: xs))
        with ("" +:+ String c0 sep' +:+ join (String c0 sep') (x :: xs)).
      rewrite <- E, IH; [reflexivity|].
      rewrite length_append in Hle. lia.
    + destruct (split_skip sep 0 s) as [|w ws] eqn:E;
        [now apply split_skip_not_nil in E|].
      rewrite join_cons_head, <- E, IH by lia. reflexivity.
Qed.

(** Every piece of [s.split()] is a token that is not empty. *)
Lemma split_tokens s : Forall (fun w => w <> "" /\ token w = true) (split s).
Proof.
  induction s as [|c s IH]; cbn [split]; [constructor|].
  destruct (isspace c) eqn:Hc; [exact IH|].
  assert (Hone : String c "" <> "" /\ token (String c "") = true)
    by (split; [discriminate | cbn; now rewrite Hc]).
  destruct s as [|c' s']; [repeat constructor; apply Hone|].
  destruct (isspace c') eqn:Hc'; [constructor; [apply Hone | exact IH]|].
  destruct (split (String c' s')) as [|w ws]; [repeat constructor; apply Hone|].
  apply Forall_cons in IH as [[_ Hw] Hws]. constructor; [|exact Hws].
  split; [discriminate | cbn; now rewrite Hc, Hw].
Qed.

(** *** parse_output.py *)

(** The loop of a parser, when the extraction succeeds on every line that
    contains the anchor: the extracted texts are written in the order of the
    file, and the flag records whether there was one. *)
Lemma scan_lines anchor (extract : string -> res string) after input_f :
  Forall (fun line => contains anchor line = true ->
                      extract line = Ok (after line)) input_f ->
  forall b out,
    for_in input_f
      (fun (out_str : bool) line =>
         if contains anchor line then
           bind (lift (extract line))
                (fun number_hgts =>
                   bind (stdout_write number_hgts) (fun _ => ret true))
         else ret out_str) b out =
    (out +:+ String.concat "" (map after (List.filter (contains anchor) input_f)),
     Ok (b || match List.filter (contains anchor) input_f with
              | [] => false
              | _ => true
              end)).
Proof.
  induction 1 as [|line input_f Hline _ IH]; intros b out.
  - cbn. now rewrite append_empty_r, orb_false_r.
  - cbn [for_in List.filter]. unfold bind at 1.
    destruct (contains anchor line) eqn:Hc.
    + unfold bind, lift, stdout_write, ret. rewrite (Hline eq_refl).
      rewrite IH, append_assoc, orb_true_r.
      change (map after (line :: List.filter (contains anchor) input_f))
        with (after line :: map after (List.filter (contains anchor) input_f)).
      now rewrite concat_cons.
    + unfold ret. rewrite IH. reflexivity.
Qed.

Lemma scan_report anchor (extract : string -> res string) after input_f out :
  Forall (fun line => contains anchor line = true ->
                      extract line = Ok (after line)) input_f ->
  bind (for_in input_f
          (fun (out_str : bool) line =>
             if contains anchor line then
               bind (lift (extract line))
                    (fun number_hgts =>
                       bind (stdout_write number_hgts) (fun _ => ret true))
             else ret out_str) false)
       (fun out_str => if negb out_str then stdout_write "NaN" else ret tt) out =
  (out +:+ all_matches anchor after input_f, Ok tt).
Proof.
  intros H. unfold bind at 1. rewrite (scan_lines _ _ _ _ H). simpl.
  unfold all_matches.
  destruct (List.filter (contains anchor) input_f); simpl.
  - unfold stdout_write. now rewrite append_empty_r.
  - reflexivity.
Qed.

Lemma index_nth {A} (l : list A) i d x : l !! i = Some x -> nth i l d = x.
Proof.
  revert i; induction l as [|y l IH]; intros [|i]; simpl; try discriminate.
  - now intros [= ->].
  - apply IH.
Qed.

Lemma trex_extract_ok line :
  contains trex_string line = true ->
  rbind (index (split_on trex_string line) 1) (fun x => Ok (strip x)) =
  Ok (trex_after line).
Proof.
  intros Hc. unfold trex_after.
  destruct (contains_split_on trex_string line) as (a & b & rest & ->);
    [discriminate | assumption | reflexivity].
Qed.

Lemma jane4_extract_ok line :
  contains jane4_string line = true ->
  rbind (index (split_on jane4_string line) 1) (fun x => Ok (strip x)) =
  Ok (jane4_after line).
Proof.
  intros Hc. unfold jane4_after.
  destruct (contains_split_on jane4_string line) as (a & b & rest & ->);
    [discriminate | assumption | reflexivity].
Qed.

Lemma riatahgt_extract_ok line :
  contains riatahgt_string line = true ->
  rbind (index (split_on riatahgt_string line) 1)
        (fun x => index (split_on " component(s)" x) 0) =
  Ok (riatahgt_after line).
Proof.
  intros Hc. unfold riatahgt_after.
  destruct (contains_split_on riatahgt_string line) as (a & b & rest & ->);
    [discriminate | assumption |]. simpl.
  destruct (split_on_hd " component(s)" b) as (x & r & ->). reflexivity.
Qed.

Lemma rangerdtl_extract_ok line :
  contains "Transfers: " line = true ->
  rbind (index (split_on "Transfers: " line) 1)
        (fun x => index (split_on "," x) 0) =
  Ok (rangerdtl_after line).
Proof.
  intros Hc. unfold rangerdtl_after.
  destruct (contains_split_on "Transfers: " line) as (a & b & rest & ->);
    [discriminate | assumption |]. simpl.
  destruct (split_on_hd "," b) as (x & r & ->). reflexivity.
Qed.

Lemma parse_trex_all input_f out :
  parse_trex input_f out = (out +:+ all_matches trex_string trex_after input_f, Ok tt).
Proof.
  unfold parse_trex. apply scan_report with (extract := fun line =>
    rbind (index (split_on trex_string line) 1) (fun x => Ok (strip x))).
  apply Forall_forall. intros line _. apply trex_extract_ok.
Qed.

Lemma parse_jane4_all input_f out :
  parse_jane4 input_f out = (out +:+ all_matches jane4_string jane4_after input_f, Ok tt).
Proof.
  unfold parse_jane4. apply scan_report with (extract := fun line =>
    rbind (index (split_on jane4_string line) 1) (fun x => Ok (strip x))).
  apply Forall_forall. intros line _. apply jane4_extract_ok.
Qed.

Lemma parse_riatahgt_all input_f out :
  parse_riatahgt input_f out =
  (out +:+ all_matches riatahgt_string riatahgt_after input_f, Ok tt).
Proof.
  unfold parse_riatahgt. apply scan_report with (extract := fun line =>
    rbind (index (split_on riatahgt_string line) 1)
          (fun x => index (split_on " component(s)" x) 0)).
  apply Forall_forall. intros line _. apply riatahgt_extract_ok.
Qed.

Lemma parse_rangerdtl_all input_f out :
  Forall (fun line => contains rangerdtl_string line = true ->
                      contains "Transfers: " line = true) input_f ->
  parse_rangerdtl input_f out =
  (out +:+ all_matches rangerdtl_string rangerdtl_after input_f, Ok tt).
Proof.
  intros H. unfold parse_rangerdtl. apply scan_report with (extract := fun line =>
    rbind (index (split_on "Transfers: " line) 1)
          (fun x => index (split_on "," x) 0)).
  eapply Forall_impl; [exact H|]. simpl. intros line Hl Hc.
  apply rangerdtl_extract_ok. auto.
Qed.

Lemma filter_none {A} (f : A -> bool) (l : list A) :
  Forall (fun x => f x = false) l -> List.filter f l = [].
Proof.
  induction 1 as [|x l Hx _ IH]; simpl; [reflexivity | now rewrite Hx].
Qed.

Lemma filter_single {A} (f : A -> bool) (pre post : list A) (x : A) :
  Forall (fun y => f y = false) pre -> Forall (fun y => f y = false) post ->
  f x = true -> List.filter f (pre ++ [x] ++ post) = [x].
Proof.
  intros Hpre Hpost Hx.
  rewrite !List.filter_app, (filter_none f pre), (filter_none f post) by assumption.
  simpl. now rewrite Hx.
Qed.

(** C7, as the specification words it, fails: with two lines that contain
    the anchor, [parse_trex] writes both numbers, not only the first. *)
Lemma parse_trex_writes_every_match :
  first_match trex_string trex_after
    ["hgt : number of HGT(s) found = 3" +:+ nl;
     "hgt : number of HGT(s) found = 5" +:+ nl] = "3" /\
  parse_trex
    ["hgt : number of HGT(s) found = 3" +:+ nl;
     "hgt : number of HGT(s) found = 5" +:+ nl] "" = ("35", Ok tt) /\
  parse_trex
    ["hgt : number of HGT(s) found = 3" +:+ nl;
     "hgt : number of HGT(s) found = 5" +:+ nl] "" <> ("3", Ok tt).
Proof. split; [reflexivity | split; [reflexivity | discriminate]]. Qed.

(** C7 (amended): for every input file, the parsers of trex, riata-hgt and
    jane4 write the text extracted from every line that contains the tool's
    anchor, in the order of the file, and [NaN] when no line contains it;
    ranger-dtl does so when each line with its anchor also holds
    ["Transfers: "].  When exactly one line contains the anchor, what is
    written is the first match.  A T-REX log whose only line with the anchor
    is ["hgt : number of HGT(s) found = 3"] makes the parser write [3], a log
    without the anchor makes it write [NaN]. *)
Theorem parse_output_writes_all_matches :
  (forall input_f out,
      _main input_f "trex" out =
        (out +:+ all_matches trex_string trex_after input_f, Ok tt) /\
      _main input_f "riata-hgt" out =
        (out +:+ all_matches riatahgt_string riatahgt_after input_f, Ok tt) /\
      _main input_f "jane4" out =
        (out +:+ all_matches jane4_string jane4_after input_f, Ok tt) /\
      (Forall (fun line => contains rangerdtl_string line = true ->
                           contains "Transfers: " line = true) input_f ->
       _main input_f "ranger-dtl" out =
         (out +:+ all_matches rangerdtl_string rangerdtl_after input_f, Ok tt))) /\
  (forall anchor after input_f line,
      List.filter (contains anchor) input_f = [line] ->
      all_matches anchor after input_f = first_match anchor after input_f) /\
  (forall anchor after input_f,
      Forall (fun line => contains anchor line = false) input_f ->
      all_matches anchor after input_f = "NaN") /\
  (forall pre post eol,
      Forall (fun line => contains trex_string line = false) pre ->
      Forall (fun line => contains trex_string line = false) post ->
      eol = "" \/ eol = nl ->
      parse_trex (pre ++ ["hgt : number of HGT(s) found = 3" +:+ eol] ++ post) ""
      = ("3", Ok tt)) /\
  (forall input_f,
      Forall (fun line => contains trex_string line = false) input_f ->
      parse_trex input_f "" = ("NaN", Ok tt)).
Proof.
  split; [|split; [|split; [|split]]].
  - intros input_f out. repeat split.
    + apply parse_trex_all.
    + apply parse_riatahgt_all.
    + apply parse_jane4_all.
    + apply parse_rangerdtl_all.
  - intros anchor after input_f line H. unfold all_matches, first_match.
    rewrite H. simpl. reflexivity.
  - intros anchor after input_f H. unfold all_matches.
    now rewrite filter_none.
  - intros pre post eol Hpre Hpost Heol. rewrite parse_trex_all.
    unfold all_matches. rewrite filter_single; try assumption.
    + destruct Heol as [-> | ->]; reflexivity.
    + destruct Heol as [-> | ->]; reflexivity.
  - intros input_f H. rewrite parse_trex_all. unfold all_matches.
    now rewrite filter_none.
Qed.

Lemma parse_output_writes_all_matches_witness :
  parse_trex ["T-REX 3.6" +:+ nl;
              "hgt : number of HGT(s) found = 3" +:+ nl;
              "done" +:+ nl] "" = ("3", Ok tt) /\
  parse_trex ["T-REX 3.6" +:+ nl; "done" +:+ nl] "" = ("NaN", Ok tt).
Proof.
  destruct parse_output_writes_all_matches as (_ & _ & _ & H3 & HNaN).
  split.
  - apply (H3 ["T-REX 3.6" +:+ nl] ["done" +:+ nl] nl);
      [repeat constructor | repeat constructor | right; reflexivity].
  - apply HNaN. repeat constructor.
Defined.

(** C8, as stated, fails for [consel]: the identifier is accepted and is not
    one of the four with a parser, but [_main] calls [parse_consel], which
    does not exist, and a [NameError] is raised. *)
Lemma consel_raises_name_error :
  In "consel" methods /\ ~ In "consel" implemented /\
  ParseOutput._main [] "consel" "" = ("", Raise (NameError "parse_consel")) /\
  ParseOutput._main [] "consel" "" <> ("", Ok tt).
Proof.
  repeat split.
  - simpl. tauto.
  - simpl. intros [H|[H|[H|[H|[]]]]]; discriminate.
  - discriminate.
Qed.

(** C8 (amended): for every identifier of the enumerated set other than
    trex, ranger-dtl, riata-hgt, jane4 and consel, the output parser writes
    nothing and raises nothing. *)
Theorem unimplemented_method_is_silent method :
  In method methods -> ~ In method implemented -> method <> "consel" ->
  forall input_f out, ParseOutput._main input_f method out = (out, Ok tt).
Proof.
  intros Hin Hnot Hconsel input_f out. simpl in Hin, Hnot.
  repeat (destruct Hin as [<- | Hin]; [try reflexivity; try tauto |]).
  destruct Hin.
Qed.

Lemma unimplemented_method_is_silent_witness :
  ParseOutput._main ["anything" +:+ nl] "darkhorse" "" = ("", Ok tt).
Proof.
  apply unimplemented_method_is_silent.
  - simpl. tauto.
  - simpl. intros [H|[H|[H|[H|[]]]]]; discriminate.
  - discriminate.
Defined.

(** *** reformat_input.py *)

(** Induction on trees, with the hypothesis for every child. *)
Lemma TreeNode_rect_children (P : TreeNode -> Prop) :
  (forall n l cs, Forall P cs -> P (Node n l cs)) -> forall t, P t.
Proof.
  intros H. fix IH 1. intros [n l cs]. apply H.
  induction cs as [|c cs IHcs]; constructor; [apply IH | exact IHcs].
Qed.

(** **** Splitting on whitespace *)

Lemma split_head_token s w ws :
  split s = w :: ws -> w <> "" /\ token w = true.
Proof.
  revert w ws. induction s as [|c s IH]; intros w ws; simpl; [discriminate|].
  destruct (isspace c) eqn:Hc; [apply IH|].
  destruct s as [|c' s'].
  - intros [= <- <-]. simpl. now rewrite Hc.
  - destruct (isspace c') eqn:Hc'.
    + intros [= <- <-]. simpl. now rewrite Hc.
    + destruct (split (String c' s')) as [|w' ws'] eqn:E.
      * intros [= <- <-]. simpl. now rewrite Hc.
      * intros [= <- <-]. destruct (IH _ _ eq_refl) as [_ Hw'].
        split; [discriminate|]. simpl. now rewrite Hc, Hw'.
Qed.

Lemma split_token w : w <> "" -> token w = true -> split w = [w].
Proof.
  induction w as [|c w IH]; [congruence|]. intros _. simpl.
  destruct (isspace c); [discriminate|]. simpl. intros Hw.
  destruct w as [|c' w']; [reflexivity|].
  rewrite IH by (discriminate || assumption).
  simpl in Hw. destruct (isspace c'); [discriminate | reflexivity].
Qed.

Lemma split_species_gene sp g :
  sp <> "" -> token sp = true ->
  exists rest, split (sp +:+ " " +:+ g) = sp :: rest.
Proof.
  induction sp as [|c sp IH]; [congruence|]. intros _ Hsp.
  cbn [token] in Hsp. apply andb_true_iff in Hsp as [Hc Hsp].
  apply negb_true_iff in Hc.
  rewrite append_cons. cbn [split]. rewrite Hc.
  destruct sp as [|c' sp'].
  - rewrite append_empty_l. cbn. eauto.
  - rewrite append_cons. pose proof Hsp as Hsp'. cbn [token] in Hsp'.
    apply andb_true_iff in Hsp' as [Hc' _]. apply negb_true_iff in Hc'.
    rewrite Hc'. rewrite <- append_cons.
    destruct IH as [rest ->]; [discriminate | assumption |].
    eauto.
Qed.

(** **** Trimming *)

Lemma trim_name_idempotent n n' :
  trim_name n = Ok n' -> trim_name n' = Ok n'.
Proof.
  destruct n as [s|]; [|discriminate]. unfold trim_name, index.
  destruct (split s) as [|w ws] eqn:E; [discriminate|]. cbn.
  intros [= <-]. destruct (split_head_token _ _ _ E) as [Hne Htok].
  now rewrite split_token.
Qed.

Lemma trim_below_children n l c cs :
  trim_below (Node n l (c :: cs)) =
  rbind (trim_all (c :: cs)) (fun cs' => Ok (Node n l cs')).
Proof.
  reflexivity.
Qed.

Lemma trim_all_cons_inv c cs r :
  trim_all (c :: cs) = Ok r ->
  exists c' cs', r = c' :: cs' /\ trim_below c = Ok c' /\ trim_all cs = Ok cs'.
Proof.
  cbn [trim_all]. destruct (trim_below c) as [c'|]; [|discriminate]. simpl.
  destruct (trim_all cs) as [cs'|]; [|discriminate]. simpl.
  intros [= <-]. eauto.
Qed.

Lemma trim_all_idempotent cs :
  Forall (fun t => forall t', trim_below t = Ok t' -> trim_below t' = Ok t') cs ->
  forall cs', trim_all cs = Ok cs' -> trim_all cs' = Ok cs'.
Proof.
  induction 1 as [|c cs Hc _ IH]; intros r.
  - intros [= <-]. reflexivity.
  - intros Hr. apply trim_all_cons_inv in Hr as (c' & cs' & -> & H1 & H2).
    cbn [trim_all]. now rewrite (Hc _ H1), (IH _ H2).
Qed.

Lemma trim_below_idempotent t t' :
  trim_below t = Ok t' -> trim_below t' = Ok t'.
Proof.
  revert t'. induction t as [n l cs IH] using TreeNode_rect_children.
  intros t'. destruct cs as [|c cs].
  - simpl. destruct (trim_name n) as [n'|] eqn:E; [|discriminate]. simpl.
    intros [= <-]. simpl. now rewrite (trim_name_idempotent _ _ E).
  - rewrite trim_below_children.
    destruct (trim_all (c :: cs)) as [r|] eqn:E; [|discriminate]. simpl.
    intros [= <-].
    pose proof (trim_all_idempotent _ IH _ E) as Hr.
    apply trim_all_cons_inv in E as (c' & cs' & -> & _ & _).
    rewrite trim_below_children, Hr. reflexivity.
Qed.

Lemma trim_gene_tree_leaves_idempotent t t' :
  trim_gene_tree_leaves t = Ok t' -> trim_gene_tree_leaves t' = Ok t'.
Proof.
  destruct t as [n l cs]. simpl.
  destruct (trim_all cs) as [cs'|] eqn:E; [|discriminate]. simpl.
  intros [= <-]. simpl.
  rewrite (trim_all_idempotent cs) with (cs' := cs'); [reflexivity | | assumption].
  apply Forall_forall. intros t _ t'. apply trim_below_idempotent.
Qed.

(** C5, as stated, fails on the label it names: trimming splits a name on
    whitespace, so the name [speciesA_gene1], which holds none, is kept. *)
Lemma trim_keeps_underscore_label :
  trim_gene_tree_leaves
    (Node None None [Node (Some "speciesA_gene1") None [];
                     Node (Some "speciesB_gene1") None []])
  = Ok (Node None None [Node (Some "speciesA_gene1") None [];
                        Node (Some "speciesB_gene1") None []]) /\
  trim_name (Some "speciesA_gene1") <> Ok (Some "speciesA").
Proof. split; [reflexivity | discriminate]. Qed.

(** C5 (amended): gene-leaf trimming keeps the first whitespace-separated
    token of a leaf name: the name [speciesA gene1] becomes [speciesA], and
    so does every name made of a species token, a space and a gene
    qualifier; trimming a tree that is already trimmed leaves it unchanged,
    for every tree on which trimming succeeds, and likewise for a name. *)
Theorem trim_first_token_idempotent :
  trim_name (Some "speciesA gene1") = Ok (Some "speciesA") /\
  (forall sp g, sp <> "" -> token sp = true ->
                trim_name (Some (sp +:+ " " +:+ g)) = Ok (Some sp)) /\
  (forall n n', trim_name n = Ok n' -> trim_name n' = Ok n') /\
  (forall t t', trim_gene_tree_leaves t = Ok t' ->
                trim_gene_tree_leaves t' = Ok t').
Proof.
  split; [reflexivity|]. split; [|split].
  - intros sp g Hne Htok. simpl.
    destruct (split_species_gene sp g Hne Htok) as [rest ->]. reflexivity.
  - apply trim_name_idempotent.
  - apply trim_gene_tree_leaves_idempotent.
Qed.

Lemma trim_first_token_idempotent_witness :
  trim_name (Some ("sp1" +:+ " " +:+ "g1")) = Ok (Some "sp1") /\
  trim_gene_tree_leaves
    (Node None None [Node (Some "sp1") None []; Node (Some "sp2") None []])
  = Ok (Node None None [Node (Some "sp1") None []; Node (Some "sp2") None []]).
Proof.
  destruct trim_first_token_idempotent as (_ & Hsp & _ & Htree).
  split.
  - apply Hsp; [discriminate | reflexivity].
  - apply (Htree (Node None None [Node (Some "sp1 g1") None [];
                                  Node (Some "sp2 g2") None []])).
    reflexivity.
Defined.

(** **** The species-gene mapping *)

Lemma dict_get_None {V} (k : option string) (d : dict (option string) V) :
  dict_get k d = None <-> k ∉ d.*1.
Proof.
  induction d as [|[k' v] d IH]; simpl.
  - split; [intros _; apply not_elem_of_nil | reflexivity].
  - rewrite not_elem_of_cons. destruct (decide (k' = k)) as [->|Hne].
    + split; [discriminate | intros [H _]; congruence].
    + rewrite IH. split; [intros H; split; [congruence | exact H] | tauto].
Qed.

Lemma dict_get_Some {V} (k : option string) (d : dict (option string) V) :
  k ∈ d.*1 -> exists v, dict_get k d = Some v.
Proof.
  intros Hin. destruct (dict_get k d) as [v|] eqn:E; [eauto|].
  apply dict_get_None in E. contradiction.
Qed.

Lemma dict_set_fresh {V} (k : option string) (v : V) d :
  k ∉ d.*1 -> dict_set k v d = d ++ [(k, v)].
Proof.
  induction d as [|[k' v'] d IH]; simpl; [reflexivity|].
  rewrite not_elem_of_cons. intros [Hne Hd].
  destruct (decide (k' = k)); [congruence|]. now rewrite IH.
Qed.

Lemma dict_set_keys {V} (k : option string) (v : V) d :
  k ∈ d.*1 -> (dict_set k v d).*1 = d.*1.
Proof.
  induction d as [|[k' v'] d IH]; simpl.
  - intros H. now apply elem_of_nil in H.
  - destruct (decide (k' = k)) as [->|Hne]; [reflexivity|].
    rewrite elem_of_cons. intros [->|H]; [congruence|].
    cbn. f_equal. now apply IH.
Qed.

(** The first loop: one empty entry per species tip, unless a name comes
    twice. *)
Lemma species_loop_ok (nodes : list TreeNode)
    (d : dict (option string) (list string)) :
  NoDup (d.*1 ++ map name nodes) ->
  rfor_in nodes
    (fun mapping_leaves node =>
       match dict_get (name node) mapping_leaves with
       | None => Ok (dict_set (name node) [] mapping_leaves)
       | Some _ =>
           Raise (ValueError
                    ("Species tree leaves must be uniquely labeled: "
                     +:+ str_name (name node)))
       end) d
  = Ok (d ++ map (fun node => (name node, @nil string)) nodes).
Proof.
  revert d. induction nodes as [|node nodes IH]; intros d Hnd; simpl.
  - now rewrite app_nil_r.
  - assert (Hfresh : name node ∉ d.*1).
    { apply NoDup_app in Hnd as (_ & Hdis & _). intros Hin.
      apply (Hdis _ Hin). simpl. left. }
    destruct (dict_get (name node) d) as [v|] eqn:E.
    + apply dict_get_None in Hfresh. congruence.
    + simpl. rewrite dict_set_fresh by assumption.
      rewrite IH.
      * now rewrite <- app_assoc.
      * rewrite fmap_app. simpl. rewrite <- app_assoc. exact Hnd.
Qed.

Lemma species_loop_dup (nodes : list TreeNode)
    (d : dict (option string) (list string)) :
  NoDup d.*1 -> ~ NoDup (d.*1 ++ map name nodes) ->
  exists msg,
    rfor_in nodes
      (fun mapping_leaves node =>
         match dict_get (name node) mapping_leaves with
         | None => Ok (dict_set (name node) [] mapping_leaves)
         | Some _ =>
             Raise (ValueError
                      ("Species tree leaves must be uniquely labeled: "
                       +:+ str_name (name node)))
         end) d
    = Raise (ValueError msg).
Proof.
  revert d. induction nodes as [|node nodes IH]; intros d Hd Hnd; simpl.
  - rewrite app_nil_r in Hnd. contradiction.
  - destruct (dict_get (name node) d) as [v|] eqn:E; [eauto|].
    simpl. apply dict_get_None in E.
    rewrite dict_set_fresh by assumption. apply IH.
    + rewrite fmap_app. simpl. apply NoDup_app. split; [assumption|].
      split; [|apply NoDup_singleton].
      intros x Hx Hx'. apply list_elem_of_singleton in Hx'. congruence.
    + rewrite fmap_app. simpl. now rewrite <- app_assoc.
Qed.

Local Abbreviation gene_body :=
  (fun (mapping_leaves : dict (option string) (list string)) node =>
     rbind (unpack2 (name node))
       (fun sg =>
          let '(species, gene) := sg in
          match dict_get (Some species) mapping_leaves with
          | Some l =>
              Ok (dict_set (Some species) (l ++ [species]) mapping_leaves)
          | None =>
              Raise (ValueError
                       ("Species " +:+ species
                        +:+ " does not exist in the species tree"))
          end)).

Lemma gene_step_ok (d : dict (option string) (list string)) node :
  resolves d.*1 (name node) = true ->
  exists d', gene_body d node = Ok d' /\ d'.*1 = d.*1.
Proof.
  unfold resolves, unpack2. destruct (name node) as [s|]; [|discriminate].
  destruct (split s) as [|sp [|ge [|x r]]]; try discriminate.
  intros Hin. apply bool_decide_eq_true in Hin. simpl.
  destruct (dict_get_Some _ _ Hin) as [l ->].
  eexists. split; [reflexivity|]. now apply dict_set_keys.
Qed.

Lemma gene_step_fail (d : dict (option string) (list string)) node :
  resolves d.*1 (name node) = false ->
  exists e, gene_body d node = Raise e /\
            (is_Some (name node) -> exists msg, e = ValueError msg).
Proof.
  unfold resolves, unpack2. destruct (name node) as [s|].
  - destruct (split s) as [|sp [|ge [|x r]]]; simpl;
      try (intros _; eexists; split; [reflexivity | eauto]).
    intros Hin. apply bool_decide_eq_false in Hin.
    apply dict_get_None in Hin. rewrite Hin.
    eexists; split; [reflexivity | eauto].
  - intros _. eexists. split; [reflexivity|]. intros [x Hx]. discriminate.
Qed.

Lemma gene_loop_ok (nodes : list TreeNode)
    (d : dict (option string) (list string)) :
  Forall (fun node => resolves d.*1 (name node) = true) nodes ->
  exists d', rfor_in nodes gene_body d = Ok d' /\ d'.*1 = d.*1.
Proof.
  revert d. induction nodes as [|node nodes IH]; intros d Hall.
  - exists d. split; reflexivity.
  - apply Forall_cons in Hall as [Hnode Hall].
    destruct (gene_step_ok d node Hnode) as (d1 & Hstep & Hkeys).
    cbn [rfor_in]. rewrite Hstep. cbn [rbind].
    destruct (IH d1) as (d' & Hloop & Hkeys'); [now rewrite Hkeys|].
    exists d'. split; [assumption | congruence].
Qed.

Lemma gene_loop_fail (nodes : list TreeNode)
    (d : dict (option string) (list string)) :
  Exists (fun node => resolves d.*1 (name node) = false) nodes ->
  exists e, rfor_in nodes gene_body d = Raise e /\
            (Forall (fun node => is_Some (name node)) nodes ->
             exists msg, e = ValueError msg).
Proof.
  revert d. induction nodes as [|node nodes IH]; intros d Hex.
  - now apply Exists_nil in Hex.
  - cbn [rfor_in]. destruct (resolves d.*1 (name node)) eqn:Hnode.
    + destruct (gene_step_ok d node Hnode) as (d1 & -> & Hkeys).
      cbn [rbind]. apply Exists_cons in Hex as [Hex|Hex]; [congruence|].
      destruct (IH d1) as (e & -> & He); [now rewrite Hkeys|].
      exists e. split; [reflexivity|]. intros Hall.
      apply Forall_cons in Hall as [_ Hall]. auto.
    + destruct (gene_step_fail d node Hnode) as (e & -> & He).
      exists e. split; [reflexivity|]. intros Hall.
      apply Forall_cons in Hall as [Hn _]. auto.
Qed.

Lemma empty_entries_keys (nodes : list TreeNode) :
  (map (fun node => (name node, @nil string)) nodes).*1 = map name nodes.
Proof. induction nodes as [|n ns IH]; [reflexivity | cbn; now f_equal]. Qed.

Lemma species_gene_mapping_dup gene_tree species_tree :
  ~ NoDup (tip_names species_tree) ->
  exists msg, species_gene_mapping gene_tree species_tree = Raise (ValueError msg).
Proof.
  intros Hdup. unfold species_gene_mapping.
  destruct (species_loop_dup (tips species_tree) []) as [msg ->];
    [apply NoDup_nil_2 | exact Hdup |].
  exists msg. reflexivity.
Qed.

Lemma species_gene_mapping_ok gene_tree species_tree :
  NoDup (tip_names species_tree) ->
  Forall (fun n => resolves (tip_names species_tree) n = true)
         (tip_names gene_tree) ->
  exists m, species_gene_mapping gene_tree species_tree = Ok m /\
            m.*1 = tip_names species_tree.
Proof.
  intros Hnd Hall. unfold species_gene_mapping.
  rewrite (species_loop_ok (tips species_tree) []) by exact Hnd.
  cbn [rbind app].
  destruct (gene_loop_ok (tips gene_tree)
              (map (fun node => (name node, @nil string)) (tips species_tree)))
    as (m & Hm & Hkeys).
  - rewrite empty_entries_keys. unfold tip_names in Hall.
    now apply Forall_fmap in Hall.
  - exists m. split; [exact Hm|]. now rewrite Hkeys, empty_entries_keys.
Qed.

Lemma species_gene_mapping_unresolved gene_tree species_tree :
  Exists (fun n => resolves (tip_names species_tree) n = false)
         (tip_names gene_tree) ->
  exists e, species_gene_mapping gene_tree species_tree = Raise e /\
            (Forall is_Some (tip_names gene_tree) -> exists msg, e = ValueError msg).
Proof.
  intros Hex. destruct (decide (NoDup (tip_names species_tree))) as [Hnd|Hdup].
  - unfold species_gene_mapping.
    rewrite (species_loop_ok (tips species_tree) []) by exact Hnd.
    cbn [rbind app].
    destruct (gene_loop_fail (tips gene_tree)
                (map (fun node => (name node, @nil string)) (tips species_tree)))
      as (e & He & Hkind).
    + rewrite empty_entries_keys. unfold tip_names in Hex.
      now apply Exists_fmap in Hex.
    + exists e. split; [exact He|]. intros Hall. apply Hkind.
      exact (proj1 (Forall_fmap name is_Some _) Hall).
  - destruct (species_gene_mapping_dup gene_tree species_tree Hdup) as [msg ->].
    exists (ValueError msg). eauto.
Qed.

(** C6, as stated, fails in its last part: the species labels are unique and
    the species token [sp1] of the only gene leaf is in the species tree, yet
    no mapping is returned, because the name of the gene leaf does not
    unpack into two tokens. *)
Lemma mapping_needs_two_tokens :
  let species_tree := Node None None [Node (Some "sp1") None [];
                                      Node (Some "sp2") None []] in
  let gene_tree := Node None None [Node (Some "sp1") None [];
                                   Node (Some "sp2 g2") None []] in
  NoDup (tip_names species_tree) /\
  Forall (fun n => exists s sp rest, n = Some s /\ split s = sp :: rest /\
                                     Some sp ∈ tip_names species_tree)
         (tip_names gene_tree) /\
  species_gene_mapping gene_tree species_tree
  = Raise (ValueError "need more than 1 value to unpack").
Proof.
  cbv zeta. split; [|split].
  - compute_done.
  - repeat constructor.
    + exists "sp1", "sp1", []. repeat split. compute_done.
    + exists "sp2 g2", "sp2", ["g2"]. repeat split. compute_done.
  - reflexivity.
Qed.

(** C6 (amended): the construction of the species-gene mapping fails with a
    [ValueError] for every species tree in which a leaf label appears twice;
    it fails for every gene tree with a leaf whose species token is absent
    from the species tree (with a [ValueError] when every gene leaf has a
    name); and when the species labels are unique and every gene leaf name
    splits into exactly two whitespace-separated tokens, the first of which
    is a species label, it returns a mapping, whose keys are the species
    labels. *)
Theorem species_gene_mapping_validation gene_tree species_tree :
  (~ NoDup (tip_names species_tree) ->
   exists msg,
     species_gene_mapping gene_tree species_tree = Raise (ValueError msg)) /\
  (forall s sp rest,
      Some s ∈ tip_names gene_tree -> split s = sp :: rest ->
      Some sp ∉ tip_names species_tree ->
      exists e,
        species_gene_mapping gene_tree species_tree = Raise e /\
        (Forall is_Some (tip_names gene_tree) -> exists msg, e = ValueError msg)) /\
  (NoDup (tip_names species_tree) ->
   Forall (fun n => resolves (tip_names species_tree) n = true)
          (tip_names gene_tree) ->
   exists m, species_gene_mapping gene_tree species_tree = Ok m /\
             m.*1 = tip_names species_tree).
Proof.
  split; [apply species_gene_mapping_dup | split].
  - intros s sp rest Hin Hsplit Habsent.
    apply species_gene_mapping_unresolved.
    apply Exists_exists. exists (Some s). split; [exact Hin|].
    unfold resolves. rewrite Hsplit.
    destruct rest as [|ge [|x r]]; try reflexivity.
    now apply bool_decide_eq_false.
  - apply species_gene_mapping_ok.
Qed.

Lemma species_gene_mapping_validation_witness :
  (exists msg,
      species_gene_mapping
        (Node None None [Node (Some "sp1 g1") None []])
        (Node None None [Node (Some "sp1") None []; Node (Some "sp1") None []])
      = Raise (ValueError msg)) /\
  (exists e,
      species_gene_mapping
        (Node None None [Node (Some "sp3 g1") None []])
        (Node None None [Node (Some "sp1") None []; Node (Some "sp2") None []])
      = Raise e) /\
  (exists m,
      species_gene_mapping
        (Node None None [Node (Some "sp1 g1") None []; Node (Some "sp2 g2") None []])
        (Node None None [Node (Some "sp1") None []; Node (Some "sp2") None []])
      = Ok m).
Proof.
  split; [|split].
  - apply species_gene_mapping_validation.
    compute_done.
  - destruct (species_gene_mapping_validation
                (Node None None [Node (Some "sp3 g1") None []])
                (Node None None [Node (Some "sp1") None []; Node (Some "sp2") None []]))
      as (_ & H & _).
    destruct (H "sp3 g1" "sp3" ["g1"]) as (e & He & _).
    + compute_done.
    + reflexivity.
    + compute_done.
    + exists e. exact He.
  - destruct (species_gene_mapping_validation
                (Node None None [Node (Some "sp1 g1") None []; Node (Some "sp2 g2") None []])
                (Node None None [Node (Some "sp1") None []; Node (Some "sp2") None []]))
      as (_ & _ & H).
    destruct H as (m & Hm & _).
    + compute_done.
    + repeat constructor.
    + exists m. exact Hm.
Defined.

(** **** Jane 4 *)

(** C2 fails on the code: for species leaves [sp1], [sp2] and gene leaves
    [sp1 g1], [sp2 g2], the mapping pairs each species with its own name,
    because [species_gene_mapping] appends [species] where its documentation
    promises the gene tips; the text put in place of [MAPPING] is
    [sp1:sp1, sp2:sp2] (or, should the dict yield its two keys in the other
    order, [sp2:sp2, sp1:sp1]), never [sp1:g1, sp2:g2]. *)
Theorem jane4_mapping_pairs_species_with_itself :
  let species_tree := Node None None [Node (Some "sp1") None [];
                                      Node (Some "sp2") None []] in
  let gene_tree := Node None None [Node (Some "sp1 g1") None [];
                                   Node (Some "sp2 g2") None []] in
  species_gene_mapping gene_tree species_tree
  = Ok [(Some "sp1", ["sp1"]); (Some "sp2", ["sp2"])] /\
  jane4_mapping gene_tree species_tree = Ok "sp1:sp1, sp2:sp2" /\
  jane4_mapping gene_tree species_tree <> Ok "sp1:g1, sp2:g2" /\
  drop_last 2 (build_mapping_str [(Some "sp2", ["sp2"]); (Some "sp1", ["sp1"])])
  = "sp2:sp2, sp1:sp1".
Proof. cbv zeta. repeat split; try reflexivity. discriminate. Qed.

(** Whatever the shape of the two trees, only the names of their tips
    matter to the mapping. *)
Lemma jane4_mapping_tip_names gene_tree species_tree :
  tip_names species_tree = [Some "sp1"; Some "sp2"] ->
  tip_names gene_tree = [Some "sp1 g1"; Some "sp2 g2"] ->
  jane4_mapping gene_tree species_tree = Ok "sp1:sp1, sp2:sp2".
Proof.
  unfold tip_names, jane4_mapping, species_gene_mapping.
  destruct (tips species_tree) as [|[n1 ? ?] [|[n2 ? ?] [|? ?]]]; try discriminate.
  destruct (tips gene_tree) as [|[m1 ? ?] [|[m2 ? ?] [|? ?]]]; try discriminate.
  simpl. intros [= -> ->] [= -> ->]. reflexivity.
Qed.

(** **** T-REX *)

Section NewickFacts.

Variable str : TreeNode -> string.

(** The steps of [reformat_trex]: when trimming succeeds the trimmed gene
    tree is written to the temporary file, and then the arguments of the
    call of [join_trees] are evaluated, which raises. *)
Lemma reformat_trex_steps gene_tree species_tree output_tree_fp abs_path
    (fs : files) :
  reformat_trex str gene_tree species_tree output_tree_fp abs_path fs =
  match trim_gene_tree_leaves gene_tree with
  | Ok trimmed =>
      (<[abs_path := str trimmed]> fs, Raise (NameError "tmp_gene_tree"))
  | Raise e => (fs, Raise e)
  end.
Proof.
  unfold reformat_trex, bind, lift, write_file, raise.
  destruct (trim_gene_tree_leaves gene_tree) as [trimmed|e]; [|reflexivity].
  cbn. now rewrite insert_insert_eq.
Qed.

Lemma reformat_trex_output_untouched gene_tree species_tree output_tree_fp
    abs_path (fs : files) :
  abs_path <> output_tree_fp ->
  fst (reformat_trex str gene_tree species_tree output_tree_fp abs_path fs)
    !! output_tree_fp = fs !! output_tree_fp.
Proof.
  intros Hne. rewrite reformat_trex_steps.
  destruct (trim_gene_tree_leaves gene_tree); simpl; [|reflexivity].
  now rewrite lookup_insert_ne.
Qed.

(** C9 fails on the code: [reformat_trex] never completes.  When trimming
    succeeds the trimmed gene tree is written to the temporary file, and then
    the call of [join_trees] raises [NameError], since [tmp_gene_tree] is
    bound nowhere: the only file written is the temporary one, which is not
    removed, and the joined trees never reach the output path. *)
Theorem reformat_trex_never_completes gene_tree species_tree output_tree_fp
    abs_path (fs : files) :
  reformat_trex str gene_tree species_tree output_tree_fp abs_path fs =
  match trim_gene_tree_leaves gene_tree with
  | Ok trimmed =>
      (<[abs_path := str trimmed]> fs, Raise (NameError "tmp_gene_tree"))
  | Raise e => (fs, Raise e)
  end /\
  snd (reformat_trex str gene_tree species_tree output_tree_fp abs_path fs)
  <> Ok tt.
Proof.
  rewrite reformat_trex_steps. split; [reflexivity|].
  destruct (trim_gene_tree_leaves gene_tree); discriminate.
Qed.

(** RANGER-DTL, for comparison: the two trees are joined in the output. *)
Lemma reformat_rangerdtl_writes gene_tree species_tree output_tree_fp
    (fs : files) :
  reformat_rangerdtl str gene_tree species_tree output_tree_fp fs =
  (<[output_tree_fp := drop_last 1 (str species_tree) +:+ nl +:+
                       drop_last 1 (str gene_tree) +:+ nl]> fs, Ok tt).
Proof. reflexivity. Qed.

End NewickFacts.

(** The failing run of [reformat_trex] on a small input, with a serializer
    that only lists the tip names. *)
Lemma reformat_trex_run :
  let str := fun t => String.concat "," (map str_name (tip_names t)) +:+ ";" in
  reformat_trex str
    (Node None None [Node (Some "sp1 g1") None []; Node (Some "sp2 g2") None []])
    (Node None None [Node (Some "sp1") None []; Node (Some "sp2") None []])
    "out.nwk" "/tmp/tmpAbC" ∅
  = ({["/tmp/tmpAbC" := "sp1,sp2;"]}, Raise (NameError "tmp_gene_tree")).
Proof. cbv zeta. rewrite reformat_trex_steps. reflexivity. Qed.

(** *** compute_accuracy.py *)

(** **** The summary table *)

(** The header: every tool column gets an empty list, and the column names
    are recorded in order. *)
Lemma header_fold (tools : list string) (m : gmap string (list string))
    (ids : list string) :
  exists m',
    fold_left
      (fun '(tools, tools_id) tool =>
         (match tools !! tool with
          | None => <[tool := []]> tools
          | Some _ => tools
          end, tools_id ++ [tool]))
      tools (m, ids) = (m', ids ++ tools) /\
    (forall t, t ∈ tools -> m !! t = None -> m' !! t = Some []) /\
    (forall t, is_Some (m !! t) -> m' !! t = m !! t) /\
    (forall t, t ∉ tools -> m' !! t = m !! t).
Proof.
  revert m ids. induction tools as [|tool tools IH]; intros m ids.
  - exists m. rewrite app_nil_r. repeat split; auto.
    intros t Ht. now apply elem_of_nil in Ht.
  - cbn [fold_left].
    destruct (IH (match m !! tool with
                  | None => <[tool := []]> m
                  | Some _ => m
                  end) (ids ++ [tool])) as (m' & Hfold & Hnew & Hold & Hout).
    exists m'. rewrite Hfold, <- app_assoc. split; [reflexivity|].
    split; [|split].
    + intros t Ht Hnone. destruct (decide (t = tool)) as [->|Hne].
      * rewrite Hnone in *. rewrite Hold; rewrite lookup_insert_eq; eauto.
      * apply elem_of_cons in Ht as [?|Ht]; [congruence|].
        apply Hnew; [assumption|].
        destruct (m !! tool); [assumption | now rewrite lookup_insert_ne].
    + intros t Hsome. rewrite Hold.
      * destruct (m !! tool) eqn:E; [reflexivity|].
        rewrite lookup_insert_ne; [reflexivity|]. intros ->.
        rewrite E in Hsome. now destruct Hsome.
      * destruct (m !! tool) eqn:E; [assumption|].
        destruct (decide (t = tool)) as [->|Hne];
          [rewrite lookup_insert_eq; eauto | now rewrite lookup_insert_ne].
    + intros t Ht. apply not_elem_of_cons in Ht as [Hne Ht].
      rewrite Hout by assumption.
      destruct (m !! tool); [reflexivity | now rewrite lookup_insert_ne].
Qed.

(** The genes a row adds in column [k]. *)
Local Abbreviation mark g zs k :=
  (match zs !! k with
   | Some z => if (0 <? z)%Z then [g] else []
   | None => []
   end).

(** The inner loop over the flags of one row, from column [i] on. *)
Lemma flags_loop (tools : list string) (g : string) raw zs :
  NoDup tools ->
  Forall2 (fun s z => int s = Ok z) raw zs ->
  forall i (m : gmap string (list string)),
    (forall t, t ∈ tools -> is_Some (m !! t)) ->
    i + length raw <= length tools ->
    exists m',
      rfor_in raw (record_flag tools g) (m, i) = Ok (m', i + length raw) /\
      (forall j t, tools !! j = Some t ->
                   m' !! t = (fun l => l ++ if decide (i <= j)
                                            then mark g zs (j - i) else [])
                               <$> m !! t) /\
      (forall t, t ∉ tools -> m' !! t = m !! t).
Proof.
  intros Hnd. induction 1 as [|s z raw zs Hs _ IH]; intros i m Hdom Hlen.
  - exists m. cbn [rfor_in length]. rewrite Nat.add_0_r.
    split; [reflexivity|]. split; [|reflexivity].
    intros j t _. destruct (m !! t); cbn; [|reflexivity].
    destruct (decide (i <= j)); now rewrite ?lookup_nil, app_nil_r.
  - cbn [length] in Hlen. cbn [rfor_in record_flag]. rewrite Hs. cbn [rbind].
    destruct (0 <? z)%Z eqn:Hz.
    + destruct (lookup_lt_is_Some_2 tools i) as [tool Htool]; [lia|].
      unfold index. rewrite Htool. cbn [rbind].
      destruct (Hdom tool) as [genes Hgenes];
        [eapply list_elem_of_lookup_2; eassumption|].
      rewrite Hgenes. cbn [rbind].
      destruct (IH (S i) (<[tool := genes ++ [g]]> m)) as (m' & Hloop & Hin & Hout).
      * intros t Ht. destruct (decide (t = tool)) as [->|Hne];
          [rewrite lookup_insert_eq; eauto | rewrite lookup_insert_ne; auto].
      * lia.
      * exists m'. rewrite Hloop. split; [cbn [length]; f_equal; f_equal; lia|]. split.
        -- intros j t Hj. rewrite (Hin j t Hj).
           destruct (decide (j = i)) as [->|Hji].
           ++ assert (t = tool) as -> by congruence.
              rewrite lookup_insert_eq, Hgenes. cbn.
              destruct (decide (S i <= i)); [lia|].
              destruct (decide (i <= i)); [|lia].
              rewrite Nat.sub_diag. cbn. rewrite Hz. now rewrite app_nil_r.
           ++ assert (t <> tool).
              { intros ->. apply Hji. eapply NoDup_lookup; eassumption. }
              rewrite lookup_insert_ne by congruence.
              destruct (m !! t); cbn; [|reflexivity]. f_equal. f_equal.
              destruct (decide (S i <= j)), (decide (i <= j)); try lia; [|reflexivity].
              replace (j - i) with (S (j - S i)) by lia. reflexivity.
        -- intros t Ht. rewrite Hout by assumption.
           rewrite lookup_insert_ne; [reflexivity|]. intros ->. apply Ht.
           eapply list_elem_of_lookup_2; eassumption.
    + cbn [rbind].
      destruct (IH (S i) m Hdom) as (m' & Hloop & Hin & Hout); [lia|].
      exists m'. rewrite Hloop. split; [cbn [length]; f_equal; f_equal; lia|].
      split; [|assumption].
      intros j t Hj. rewrite (Hin j t Hj).
      destruct (m !! t); cbn; [|reflexivity]. f_equal. f_equal.
      destruct (decide (S i <= j)), (decide (i <= j)); try lia.
      * replace (j - i) with (S (j - S i)) by lia. reflexivity.
      * assert (j = i) as -> by lia. rewrite Nat.sub_diag. cbn. now rewrite Hz.
      * reflexivity.
Qed.

Lemma detected_cons i r rows :
  detected i (r :: rows) = mark (row_gene r) (row_flags r) i ++ detected i rows.
Proof.
  unfold detected, flagged. cbn [List.filter].
  destruct (row_flags r !! i) as [z|]; [|reflexivity].
  destruct (0 <? z)%Z; reflexivity.
Qed.

(** One data row: its gene is appended to the list of every tool whose
    column holds an integer above zero. *)
Lemma parse_line_row (tools : list string) line r
    (m : gmap string (list string)) :
  NoDup tools -> row_of line r ->
  length (row_flags r) <= length tools ->
  (forall t, t ∈ tools -> is_Some (m !! t)) ->
  exists m',
    parse_line (m, tools) line = Ok (m', tools) /\
    (forall j t, tools !! j = Some t ->
                 m' !! t = (fun l => l ++ mark (row_gene r) (row_flags r) j)
                             <$> m !! t) /\
    (forall t, t ∉ tools -> m' !! t = m !! t).
Proof.
  intros Hnd (idx & raw & Hsplit & Hidx & Hflags) Hlen Hdom.
  unfold parse_line. rewrite Hsplit. cbn [index lookup list_lookup rbind drop].
  rewrite Hidx. cbn [rbind].
  destruct (flags_loop tools (row_gene r) raw (row_flags r) Hnd Hflags 0 m Hdom)
    as (m' & Hloop & Hin & Hout).
  { apply Forall2_length in Hflags. lia. }
  exists m'. rewrite drop_0, Hloop. cbn [rbind fst]. split; [reflexivity|].
  split; [|assumption].
  intros j t Hj. rewrite (Hin j t Hj).
  destruct (decide (0 <= j)); [|lia]. now rewrite Nat.sub_0_r.
Qed.

Lemma rows_loop (tools : list string) lines rows :
  NoDup tools ->
  Forall2 row_of lines rows ->
  Forall (fun r => length (row_flags r) <= length tools) rows ->
  forall m : gmap string (list string),
    (forall t, t ∈ tools -> is_Some (m !! t)) ->
    exists m',
      rfor_in lines parse_line (m, tools) = Ok (m', tools) /\
      (forall j t, tools !! j = Some t ->
                   m' !! t = (fun l => l ++ detected j rows) <$> m !! t) /\
      (forall t, t ∉ tools -> m' !! t = m !! t).
Proof.
  intros Hnd. induction 1 as [|line r lines rows Hrow _ IH]; intros Hlens m Hdom.
  - exists m. split; [reflexivity|]. split; [|reflexivity].
    intros j t _. destruct (m !! t); cbn; [|reflexivity].
    now rewrite app_nil_r.
  - apply Forall_cons in Hlens as [Hlen Hlens].
    destruct (parse_line_row tools line r m Hnd Hrow Hlen Hdom)
      as (m1 & Hline & Hin1 & Hout1).
    destruct (IH Hlens m1) as (m' & Hloop & Hin & Hout).
    { intros t Ht. apply list_elem_of_lookup in Ht as [j Hj].
      rewrite (Hin1 j t Hj). apply fmap_is_Some. apply Hdom.
      eapply list_elem_of_lookup_2; eassumption. }
    exists m'. cbn [rfor_in]. rewrite Hline. cbn [rbind].
    split; [exact Hloop|]. split.
    + intros j t Hj. rewrite (Hin j t Hj), (Hin1 j t Hj), detected_cons.
      destruct (m !! t); cbn; [|reflexivity]. now rewrite app_assoc.
    + intros t Ht. now rewrite Hout, Hout1.
Qed.

(** C10: for every well-formed summary table -- any first line, then the
    header naming the tool columns, then data rows with an integer per tool
    -- [parse_observed_transfers] drops the first line whatever it is, takes
    the gene of a row from its second column, and lists under each tool, in
    row order, exactly the genes whose integer in the column of the tool is
    greater than zero. *)
Theorem parse_observed_transfers_detects first header lines tools rows :
  header_of header tools -> NoDup tools ->
  Forall2 row_of lines rows ->
  Forall (fun r => length (row_flags r) <= length tools) rows ->
  exists m,
    parse_observed_transfers (first :: header :: lines) = Ok m /\
    (forall i tool, tools !! i = Some tool ->
                    m !! tool = Some (detected i rows)) /\
    (forall tool, tool ∉ tools -> m !! tool = None).
Proof.
  intros (h0 & h1 & Hsplit & Hh0) Hnd Hrows Hlens.
  unfold parse_observed_transfers. cbn [rfor_in].
  unfold parse_line at 1. rewrite Hsplit.
  cbn [index lookup list_lookup rbind drop]. rewrite Hh0, drop_0.
  destruct (header_fold tools ∅ []) as (m0 & -> & Hnew & _ & Hout0).
  cbn [rbind app].
  destruct (rows_loop tools lines rows Hnd Hrows Hlens m0)
    as (m & -> & Hin & Hout).
  { intros t Ht. rewrite (Hnew t Ht); [eauto | apply lookup_empty]. }
  exists m. cbn [rbind fst]. split; [reflexivity|]. split.
  - intros i tool Hi. rewrite (Hin i tool Hi), Hnew; [reflexivity | | apply lookup_empty].
    eapply list_elem_of_lookup_2; eassumption.
  - intros tool Ht. rewrite Hout, Hout0 by assumption. apply lookup_empty.
Qed.

(** A table with the flags 1, 0, 2 and -1: the positive ones count, whatever
    their value; zero and the negative one do not. *)
Lemma parse_observed_transfers_detects_witness :
  exists m,
    parse_observed_transfers
      ["#number of HGTs detected" +:+ nl;
       "#" +:+ tab +:+ "gene ID" +:+ tab +:+ "T-REX" +:+ tab +:+ "RANGER-DTL" +:+ nl;
       "0" +:+ tab +:+ "1000" +:+ tab +:+ "1" +:+ tab +:+ "0" +:+ nl;
       "1" +:+ tab +:+ "1001" +:+ tab +:+ "2" +:+ tab +:+ "-1" +:+ nl] = Ok m /\
    m !! "T-REX" = Some ["1000"; "1001"] /\
    m !! "RANGER-DTL" = Some [].
Proof.
  destruct (parse_observed_transfers_detects
              ("#number of HGTs detected" +:+ nl)
              ("#" +:+ tab +:+ "gene ID" +:+ tab +:+ "T-REX" +:+ tab +:+ "RANGER-DTL" +:+ nl)
              ["0" +:+ tab +:+ "1000" +:+ tab +:+ "1" +:+ tab +:+ "0" +:+ nl;
               "1" +:+ tab +:+ "1001" +:+ tab +:+ "2" +:+ tab +:+ "-1" +:+ nl]
              ["T-REX"; "RANGER-DTL"]
              [{| row_gene := "1000"; row_flags := [1; 0]%Z |};
               {| row_gene := "1001"; row_flags := [2; -1]%Z |}])
    as (m & Hm & Hin & _).
  - exists "#", "gene ID". split; reflexivity.
  - compute_done.
  - repeat constructor.
    + exists "0", ["1"; "0"]. repeat split; repeat constructor.
    + exists "1", ["2"; "-1"]. repeat split; repeat constructor.
  - repeat constructor.
  - exists m. split; [exact Hm|]. split.
    + apply (Hin 0 "T-REX"). reflexivity.
    + apply (Hin 1 "RANGER-DTL"). reflexivity.
Defined.

(** **** Floats: the conversion of a count is zero only for the count zero *)

Lemma digits_pos_Z (m : Z) : (0 <= m)%Z -> (0 < Zdigits2 m)%Z -> (0 < m)%Z.
Proof. destruct m; simpl; lia. Qed.

Lemma shr_1_digits s :
  Zdigits2 (shr_m (shr_1 s)) = Z.max 0 (Zdigits2 (shr_m s) - 1).
Proof.
  destruct s as [m r b]. destruct m as [|p|p]; [reflexivity | |];
    destruct p; simpl; lia.
Qed.

Lemma shr_1_nonneg s : (0 <= shr_m s)%Z -> (0 <= shr_m (shr_1 s))%Z.
Proof.
  destruct s as [m r b]. destruct m as [|p|p]; simpl; try lia;
    destruct p; simpl; lia.
Qed.

Lemma iter_shr_1_digits p s :
  Zdigits2 (shr_m (SpecFloat.iter_pos shr_1 p s)) = Z.max 0 (Zdigits2 (shr_m s) - Zpos p).
Proof.
  revert s. induction p as [p IH|p IH|]; intros s; cbn [SpecFloat.iter_pos].
  - rewrite !IH, shr_1_digits. lia.
  - rewrite !IH. lia.
  - apply shr_1_digits.
Qed.

Lemma iter_shr_1_nonneg p s :
  (0 <= shr_m s)%Z -> (0 <= shr_m (SpecFloat.iter_pos shr_1 p s))%Z.
Proof.
  revert s. induction p as [p IH|p IH|]; intros s Hs; cbn [SpecFloat.iter_pos].
  - apply IH, IH, shr_1_nonneg, Hs.
  - apply IH, IH, Hs.
  - apply shr_1_nonneg, Hs.
Qed.

Lemma shr_record_of_loc_m m l : shr_m (shr_record_of_loc m l) = m.
Proof. destruct l as [|[]]; reflexivity. Qed.

(** Rounding to the format keeps a positive mantissa positive, when the
    exponent is not below the least exponent of the format. *)
Lemma shr_fexp_positive m e l :
  (0 < m)%Z -> (SpecFloat.emin prec emax <= e)%Z ->
  (0 < shr_m (fst (shr_fexp prec emax m e l)))%Z /\
  (SpecFloat.emin prec emax <= snd (shr_fexp prec emax m e l))%Z.
Proof.
  intros Hm He. unfold shr_fexp, shr.
  destruct (fexp prec emax (Zdigits2 m + e) - e)%Z as [|n|n] eqn:En; cbn [fst snd].
  - now rewrite shr_record_of_loc_m.
  - split.
    + apply digits_pos_Z.
      * apply iter_shr_1_nonneg. rewrite shr_record_of_loc_m. lia.
      * rewrite iter_shr_1_digits, shr_record_of_loc_m.
        unfold fexp, SpecFloat.emin, prec, emax in *.
        destruct m; simpl in *; lia.
    + lia.
  - now rewrite shr_record_of_loc_m.
Qed.

Lemma round_nearest_even_positive m l :
  (0 < m)%Z -> (0 < round_nearest_even m l)%Z.
Proof.
  intros Hm. unfold round_nearest_even.
  destruct l as [|[]]; try lia. destruct (Z.even m); lia.
Qed.

Lemma binary_round_aux_not_zero sx m e l :
  (0 < m)%Z -> (SpecFloat.emin prec emax <= e)%Z ->
  is_zero (binary_round_aux prec emax sx m e l) = false.
Proof.
  intros Hm He. unfold binary_round_aux.
  destruct (shr_fexp_positive m e l Hm He) as [H1 H1e].
  destruct (shr_fexp prec emax m e l) as [mrs' e']. cbn [fst snd] in H1, H1e.
  pose proof (round_nearest_even_positive _ (loc_of_shr_record mrs') H1) as H2.
  destruct (shr_fexp_positive _ e' loc_Exact H2 H1e) as [H3 _].
  destruct (shr_fexp prec emax _ e' loc_Exact) as [mrs'' e''].
  cbn [fst] in H3. destruct (shr_m mrs'') as [|q|q]; try lia.
  destruct (e'' <=? emax - prec)%Z; reflexivity.
Qed.

Lemma binary_round_not_zero sx m e :
  (SpecFloat.emin prec emax <= e)%Z ->
  is_zero (binary_round prec emax sx m e) = false.
Proof.
  intros He. unfold binary_round, shl_align.
  destruct (fexp prec emax (Z.pos (digits2_pos m) + e) - e)%Z as [|n|n] eqn:En;
    apply binary_round_aux_not_zero; try lia.
  unfold fexp, SpecFloat.emin, prec, emax in *. lia.
Qed.

Lemma float_of_nat_is_zero n : is_zero (float_of_nat n) = (n =? 0).
Proof.
  unfold float_of_nat, float_of_Z, binary_normalize.
  destruct n as [|n]; [reflexivity|].
  cbn [Z.of_nat Nat.eqb]. apply binary_round_not_zero.
  unfold SpecFloat.emin, prec, emax. lia.
Qed.

(** **** The accuracy of the tools *)

Lemma exp_set_fold (expected : list transfer) (s : gset string) :
  fold_left (fun exp_s tup => exp_s ∪ {[gene_donated tup]}) expected s
  = s ∪ expected_genes expected.
Proof.
  revert s. induction expected as [|tup expected IH]; intros s; cbn [fold_left].
  - unfold expected_genes. cbn. set_solver.
  - rewrite IH. unfold expected_genes. cbn. set_solver.
Qed.

(** The set the first loop of [compute_accuracy] builds holds the donated
    genes of the expected transfers. *)
Lemma exp_set_expected_genes expected : exp_set expected = expected_genes expected.
Proof. unfold exp_set. rewrite exp_set_fold. set_solver. Qed.

Lemma detected_set_empty genes : detected_set genes = ∅ <-> genes = [].
Proof.
  unfold detected_set. split; [|intros ->; reflexivity].
  destruct genes as [|g genes]; [reflexivity|]. cbn. set_solver.
Qed.

(** A tool with a detection has a positive first denominator. *)
Lemma detections_positive genes expected :
  genes <> [] ->
  true_positives genes expected + false_positives genes expected <> 0.
Proof.
  intros Hne. unfold true_positives, false_positives.
  rewrite <- size_union by set_solver.
  intros Hsize. apply size_empty_iff in Hsize.
  apply Hne, detected_set_empty, elem_of_equiv_empty_L. intros x Hx.
  destruct (decide (x ∈ expected_genes expected)); set_solver.
Qed.

(** What the body of the loop does for one tool with a detection. *)
Lemma score_tool_cases expected tool genes out :
  genes <> [] ->
  score_tool (exp_set expected) tool genes out =
  if zero_denominator genes expected
  then (out, Raise ZeroDivisionError)
  else (out +:+ report_line tool genes expected, Ok tt).
Proof.
  intros Hne. unfold score_tool. rewrite exp_set_expected_genes.
  fold (detected_set genes).
  destruct (decide (detected_set genes = ∅)) as [Hempty|_];
    [now apply detected_set_empty in Hempty|].
  fold (true_positives genes expected) (false_positives genes expected)
       (false_negatives genes expected).
  unfold zero_denominator, report_line, f_score, bind, lift, float_div.
  rewrite !float_of_nat_is_zero.
  fold (precision genes expected) (recall genes expected).
  destruct (true_positives genes expected + false_positives genes expected =? 0);
    [reflexivity|].
  destruct (true_positives genes expected + false_negatives genes expected =? 0);
    [reflexivity|].
  cbn [orb].
  destruct (is_zero (float_add (precision genes expected) (recall genes expected)));
    reflexivity.
Qed.

Lemma score_tool_empty exp_s tool out : score_tool exp_s tool [] out = (out, Ok tt).
Proof.
  unfold score_tool. destruct (decide _) as [_|H]; [reflexivity|].
  exfalso. apply H. reflexivity.
Qed.

Lemma compute_accuracy_cons expected tool genes rest out :
  compute_accuracy expected ((tool, genes) :: rest) out =
  match score_tool (exp_set expected) tool genes out with
  | (out', Ok _) => compute_accuracy expected rest out'
  | (out', Raise e) => (out', Raise e)
  end.
Proof.
  unfold compute_accuracy. cbn [for_in]. unfold bind at 1.
  destruct (score_tool (exp_set expected) tool genes out) as [out' [[]|e]];
    reflexivity.
Qed.

(** The whole run: the lines of the tools with a detection are written in
    order, up to the first tool with a zero denominator, where the run stops
    with [ZeroDivisionError]. *)
Lemma compute_accuracy_run expected observed out :
  compute_accuracy expected observed out =
  (out +:+ report expected (before_fault expected observed),
   if existsb (faulty expected) observed
   then Raise ZeroDivisionError else Ok tt).
Proof.
  revert out. induction observed as [|[tool genes] rest IH]; intros out.
  - cbn. unfold ret. now rewrite append_empty_r.
  - rewrite compute_accuracy_cons. cbn [before_fault existsb].
    destruct genes as [|g genes].
    + change (faulty expected (tool, [])) with false.
      rewrite score_tool_empty, IH. cbn [orb]. reflexivity.
    + change (faulty expected (tool, g :: genes))
        with (zero_denominator (g :: genes) expected).
      rewrite score_tool_cases by discriminate.
      destruct (zero_denominator (g :: genes) expected).
      * cbn [orb]. unfold report. cbn. now rewrite append_empty_r.
      * rewrite IH. cbn [orb]. unfold report.
        cbn [List.filter nonempty snd fst map].
        now rewrite concat_cons, append_assoc.
Qed.

Lemma before_fault_none expected observed :
  existsb (faulty expected) observed = false ->
  before_fault expected observed = observed.
Proof.
  induction observed as [|item rest IH]; [reflexivity|]. cbn.
  destruct (faulty expected item); [discriminate|]. intros H. now rewrite IH.
Qed.

(** **** Floats: the quotients of counts *)

(** A positive float with an exponent of the format, or plus infinity. *)
Local Abbreviation positive_float x :=
  ((exists m e, x = S754_finite false m e /\ (SpecFloat.emin prec emax <= e)%Z)
   \/ x = S754_infinity false).

Lemma binary_round_aux_positive m e l :
  (0 < m)%Z -> (SpecFloat.emin prec emax <= e)%Z ->
  positive_float (binary_round_aux prec emax false m e l).
Proof.
  intros Hm He. unfold binary_round_aux.
  destruct (shr_fexp_positive m e l Hm He) as [H1 H1e].
  destruct (shr_fexp prec emax m e l) as [mrs' e']. cbn [fst snd] in H1, H1e.
  pose proof (round_nearest_even_positive _ (loc_of_shr_record mrs') H1) as H2.
  destruct (shr_fexp_positive _ e' loc_Exact H2 H1e) as [H3 H3e].
  destruct (shr_fexp prec emax _ e' loc_Exact) as [mrs'' e''].
  cbn [fst snd] in H3, H3e. destruct (shr_m mrs'') as [|q|q]; try lia.
  destruct (e'' <=? emax - prec)%Z; [left; eauto | right; reflexivity].
Qed.

Lemma digits2_pos_size p : digits2_pos p = Pos.size p.
Proof. induction p as [p IH|p IH|]; cbn; now rewrite ?IH. Qed.

Lemma digits2_pos_bounds p :
  (2 ^ (Zpos (digits2_pos p) - 1) <= Zpos p < 2 ^ Zpos (digits2_pos p))%Z.
Proof.
  rewrite digits2_pos_size.
  pose proof (Pos.size_gt p) as Hgt. pose proof (Pos.size_le p) as Hle.
  apply Pos2Z.pos_lt_pos in Hgt. apply Pos2Z.pos_le_pos in Hle.
  rewrite Pos2Z.inj_pow in Hgt, Hle. split; [|exact Hgt].
  replace (Zpos (Pos.size p)) with (Z.succ (Zpos (Pos.size p) - 1)) in Hle by lia.
  rewrite Z.pow_succ_r in Hle by lia. lia.
Qed.

Lemma digits2_pos_shift p k :
  digits2_pos (Pos.iter xO p k) = (digits2_pos p + k)%positive.
Proof.
  induction k as [|k IH] using Pos.peano_ind.
  - cbn. lia.
  - rewrite Pos.iter_succ. cbn [digits2_pos]. rewrite IH. lia.
Qed.

(** A mantissa of 53 digits with an exponent of the format is left as it is
    by rounding. *)
Lemma binary_round_aux_canonical sx m e :
  Zpos (digits2_pos m) = prec ->
  (SpecFloat.emin prec emax <= e <= emax - prec)%Z ->
  binary_round_aux prec emax sx (Zpos m) e loc_Exact = S754_finite sx m e.
Proof.
  intros Hd He. unfold binary_round_aux, shr_fexp.
  cbn [Zdigits2 shr_record_of_loc]. rewrite Hd.
  replace (fexp prec emax (prec + e) - e)%Z with 0%Z
    by (unfold fexp, SpecFloat.emin, prec, emax in *; lia).
  cbn [shr shr_m loc_of_shr_record round_nearest_even Zdigits2 shr_record_of_loc].
  rewrite Hd.
  replace (fexp prec emax (prec + e) - e)%Z with 0%Z
    by (unfold fexp, SpecFloat.emin, prec, emax in *; lia).
  cbn [shr shr_m].
  destruct (Z.leb_spec e (emax - prec)); [reflexivity | lia].
Qed.

(** The float of a count below 2^53 is that count, normalised. *)
Lemma float_of_nat_finite n :
  (0 < Z.of_nat n < 2 ^ 53)%Z ->
  exists m e,
    float_of_nat n = S754_finite false m e /\
    Zpos (digits2_pos m) = prec /\ (-52 <= e <= 0)%Z.
Proof.
  intros [Hpos Hlt]. unfold float_of_nat, float_of_Z, binary_normalize.
  destruct (Z.of_nat n) as [|p|p]; try lia.
  pose proof (digits2_pos_bounds p) as [Hlow _].
  assert (Hd : (Zpos (digits2_pos p) <= 53)%Z).
  { destruct (Z.le_gt_cases (Zpos (digits2_pos p)) 53) as [|Hbig]; [assumption|].
    assert (2 ^ 53 <= 2 ^ (Zpos (digits2_pos p) - 1))%Z
      by (apply Z.pow_le_mono_r; lia).
    lia. }
  unfold binary_round, shl_align.
  replace (fexp prec emax (Zpos (digits2_pos p) + 0) - 0)%Z
    with (Zpos (digits2_pos p) - 53)%Z
    by (unfold fexp, SpecFloat.emin, prec, emax; lia).
  destruct (Zpos (digits2_pos p) - 53)%Z as [|k|k] eqn:Ek; try lia.
  - exists p, 0%Z. rewrite binary_round_aux_canonical.
    + repeat split; unfold prec; lia.
    + unfold prec; lia.
    + unfold SpecFloat.emin, prec, emax; lia.
  - exists (Pos.iter xO p k), (fexp prec emax (Zpos (digits2_pos p) + 0)).
    assert (Hf : fexp prec emax (Zpos (digits2_pos p) + 0) = Zneg k)
      by (unfold fexp, SpecFloat.emin, prec, emax; lia).
    assert (Hk : Zpos (digits2_pos (Pos.iter xO p k)) = prec)
      by (rewrite digits2_pos_shift; unfold prec; lia).
    rewrite Hf, binary_round_aux_canonical.
    + repeat split; try assumption; lia.
    + assumption.
    + unfold SpecFloat.emin, prec, emax; lia.
Qed.

(** The quotient of two counts below 2^53 that are not zero is positive. *)
Lemma quotient_positive a b :
  (0 < Z.of_nat a < 2 ^ 53)%Z -> (0 < Z.of_nat b < 2 ^ 53)%Z ->
  positive_float (SFdiv prec emax (float_of_nat a) (float_of_nat b)).
Proof.
  intros Ha Hb.
  destruct (float_of_nat_finite a Ha) as (m1 & e1 & -> & Hd1 & He1).
  destruct (float_of_nat_finite b Hb) as (m2 & e2 & -> & Hd2 & He2).
  unfold SFdiv, SFdiv_core_binary. cbn [Zdigits2 xorb]. rewrite Hd1, Hd2.
  replace (Z.min (fexp prec emax (prec + e1 - (prec + e2))) (e1 - e2))
    with (e1 - e2 - 53)%Z
    by (unfold fexp, SpecFloat.emin, prec, emax; lia).
  replace (e1 - e2 - (e1 - e2 - 53))%Z with 53%Z by lia.
  pose proof (Z_div_mod (Z.shiftl (Zpos m1) 53) (Zpos m2) ltac:(lia)) as Hdiv.
  destruct (Z.div_eucl (Z.shiftl (Zpos m1) 53) (Zpos m2)) as [q r].
  destruct Hdiv as [Hq Hr].
  apply binary_round_aux_positive.
  - rewrite Z.shiftl_mul_pow2 in Hq by lia.
    pose proof (digits2_pos_bounds m1) as [Hm1 _].
    pose proof (digits2_pos_bounds m2) as [_ Hm2].
    rewrite Hd1 in Hm1. rewrite Hd2 in Hm2. unfold prec in Hm1, Hm2.
    change (2 ^ (53 - 1))%Z with 4503599627370496%Z in Hm1.
    change (2 ^ 53)%Z with 9007199254740992%Z in Hm2, Hq.
    nia.
  - unfold SpecFloat.emin, prec, emax. lia.
Qed.

Lemma positive_sum_not_zero x y :
  positive_float x -> positive_float y -> is_zero (float_add x y) = false.
Proof.
  intros [(m1 & e1 & -> & He1)| ->] [(m2 & e2 & -> & He2)| ->];
    try reflexivity.
  unfold float_add, SFadd, binary_normalize. cbn [cond_Zopp].
  destruct (Z.pos (shl_align m1 e1 (Z.min e1 e2)).1 +
            Z.pos (shl_align m2 e2 (Z.min e1 e2)).1)%Z as [|s|s] eqn:Es; try lia.
  apply binary_round_not_zero. lia.
Qed.

(** With counts below 2^53, a denominator is zero exactly when no detected
    gene is an expected one. *)
Lemma zero_denominator_no_true_positive genes expected :
  genes <> [] ->
  (Z.of_nat (true_positives genes expected + false_positives genes expected)
   < 2 ^ 53)%Z ->
  (Z.of_nat (true_positives genes expected + false_negatives genes expected)
   < 2 ^ 53)%Z ->
  zero_denominator genes expected = (true_positives genes expected =? 0).
Proof.
  intros Hne Hb Hc. pose proof (detections_positive genes expected Hne) as Hpos.
  unfold zero_denominator, precision, recall.
  destruct (true_positives genes expected) as [|tp] eqn:Htp.
  - cbn [Nat.add Nat.eqb] in *.
    destruct (false_negatives genes expected) as [|fn];
      [cbn [Nat.eqb]; now rewrite orb_true_r|].
    destruct (float_of_nat_finite (false_positives genes expected))
      as (m1 & e1 & -> & _); [lia|].
    destruct (float_of_nat_finite (S fn)) as (m2 & e2 & -> & _); [lia|].
    apply orb_true_iff. right. reflexivity.
  - cbn [Nat.eqb]. rewrite positive_sum_not_zero.
    + apply orb_false_iff; split; [apply orb_false_iff; split|reflexivity];
        apply Nat.eqb_neq; lia.
    + apply quotient_positive; lia.
    + apply quotient_positive; lia.
Qed.

(** **** Formatting with two decimals *)

(** [round_half_even num den] is an integer nearest to [num / den]. *)
Lemma round_half_even_nearest num den :
  (0 < den)%Z ->
  (Z.abs (2 * (round_half_even num den * den - num)) <= den)%Z.
Proof.
  intros Hden. unfold round_half_even.
  pose proof (Z.div_mod num den ltac:(lia)) as Hdm.
  pose proof (Z.mod_pos_bound num den Hden) as Hmod.
  remember (num / den)%Z as q eqn:Hq. remember (num mod den)%Z as r eqn:Hr.
  clear Hq Hr. subst num.
  assert (Hdown : (2 * (q * den - (den * q + r)) = - (2 * r))%Z) by ring.
  assert (Hup : (2 * ((q + 1) * den - (den * q + r)) = 2 * den - 2 * r)%Z) by ring.
  destruct (Z.compare_spec (2 * r) den) as [Hc|Hc|Hc].
  - destruct (Z.even q); rewrite ?Hdown, ?Hup; lia.
  - rewrite Hdown. lia.
  - rewrite Hup. lia.
Qed.

(** [hundredths m e] is the number of hundredths nearest to [m * 2^e]. *)
Lemma hundredths_nearest m e :
  match e with
  | Zneg k =>
      (Z.abs (2 * (hundredths m e * 2 ^ Zpos k - 100 * Zpos m)) <= 2 ^ Zpos k)%Z
  | _ => hundredths m e = (100 * Zpos m * 2 ^ e)%Z
  end.
Proof.
  destruct e as [|k|k]; unfold hundredths; try lia.
  replace (100 * Z.pos m)%Z with (Z.pos m * 100)%Z by lia.
  apply round_half_even_nearest. lia.
Qed.

(** C4: a tool whose detected gene set is empty is skipped: the body of the
    loop writes nothing and computes nothing for it, so the run with the
    tool is the run without it. *)
Theorem empty_detection_is_skipped :
  (forall exp_s tool out, score_tool exp_s tool [] out = (out, Ok tt)) /\
  (forall expected pre post tool out,
      compute_accuracy expected (pre ++ (tool, []) :: post) out =
      compute_accuracy expected (pre ++ post) out) /\
  (forall expected tool, report expected [(tool, [])] = "").
Proof.
  split; [exact score_tool_empty | split; [|reflexivity]].
  intros expected pre post tool. induction pre as [|[t g] pre IH]; intros out.
  - cbn [app]. now rewrite compute_accuracy_cons, score_tool_empty.
  - cbn [app]. rewrite !compute_accuracy_cons.
    destruct (score_tool (exp_set expected) t g out) as [out' [[]|e]];
      [apply IH | reflexivity].
Qed.

(** C1, as stated, fails when no detected gene is an expected one: the
    detection set of the tool is not empty, yet no line is written, as the
    run stops with [ZeroDivisionError]. *)
Lemma no_true_positive_no_line :
  detected_set ["g2"] <> ∅ /\
  compute_accuracy [("donor", "g1", "recipient", "g1b")] [("toolX", ["g2"])] ""
  = ("", Raise ZeroDivisionError) /\
  true_positives ["g2"] [("donor", "g1", "recipient", "g1b")] = 0 /\
  false_positives ["g2"] [("donor", "g1", "recipient", "g1b")] = 1 /\
  false_negatives ["g2"] [("donor", "g1", "recipient", "g1b")] = 1.
Proof.
  split; [|split; [|repeat split; vm_compute; reflexivity]].
  - intros H. apply detected_set_empty in H. discriminate.
  - rewrite compute_accuracy_run. vm_compute. reflexivity.
Qed.

Lemma scenario_counts donor recipient received :
  true_positives ["g1"; "g2"] [(donor, "g1", recipient, received)] = 1 /\
  false_positives ["g1"; "g2"] [(donor, "g1", recipient, received)] = 1 /\
  false_negatives ["g1"; "g2"] [(donor, "g1", recipient, received)] = 0.
Proof.
  unfold true_positives, false_positives, false_negatives, expected_genes.
  cbn [map gene_donated]. repeat split; vm_compute; reflexivity.
Qed.

Lemma scenario_run donor recipient received :
  compute_accuracy [(donor, "g1", recipient, received)]
                   [("toolX", ["g1"; "g2"])] ""
  = ("toolX" +:+ tab +:+ "0.50" +:+ tab +:+ "1.00" +:+ tab +:+ "0.67" +:+ nl,
     Ok tt).
Proof.
  rewrite compute_accuracy_run.
  unfold before_fault, existsb, faulty, report, report_line, zero_denominator,
    f_score, precision, recall.
  cbn [snd fst nonempty].
  destruct (scenario_counts donor recipient received) as (-> & -> & ->).
  vm_compute. reflexivity.
Qed.

(** C1 (amended): for every expected-transfer list and every tool with a
    non-empty detected gene set for which no denominator is zero (with
    counts below 2^53: for which a detected gene is an expected one),
    [compute_accuracy] counts tp = |detected ∩ expected_genes|,
    fp = |detected − expected| and fn = |expected − detected|, takes
    precision = tp/(tp+fp), recall = tp/(tp+fn) and F1 = 2·p·r/(p+r), and
    writes the line of the tool, tab-separated, each metric with the two
    decimals nearest to it; when no tool has a zero denominator, the output
    is one such line per tool with a detection.  For expected transfers
    whose donated gene is [g1] and the detections [g1], [g2] of [toolX], the
    counts are 1, 1 and 0 and the line holds 0.50, 1.00 and 0.67. *)
Theorem compute_accuracy_reports_metrics :
  (forall expected genes,
      size (list_to_set genes ∩ exp_set expected) = true_positives genes expected /\
      size (list_to_set genes ∖ exp_set expected) = false_positives genes expected /\
      size (exp_set expected ∖ list_to_set genes) = false_negatives genes expected) /\
  (forall expected tool genes out,
      genes <> [] -> zero_denominator genes expected = false ->
      score_tool (exp_set expected) tool genes out =
      (out +:+ report_line tool genes expected, Ok tt)) /\
  (forall expected tool genes out,
      genes <> [] ->
      (Z.of_nat (true_positives genes expected + false_positives genes expected)
       < 2 ^ 53)%Z ->
      (Z.of_nat (true_positives genes expected + false_negatives genes expected)
       < 2 ^ 53)%Z ->
      true_positives genes expected <> 0 ->
      score_tool (exp_set expected) tool genes out =
      (out +:+ report_line tool genes expected, Ok tt)) /\
  (forall expected observed out,
      existsb (faulty expected) observed = false ->
      compute_accuracy expected observed out =
      (out +:+ report expected observed, Ok tt)) /\
  (forall m e,
      match e with
      | Zneg k =>
          (Z.abs (2 * (hundredths m e * 2 ^ Zpos k - 100 * Zpos m))
           <= 2 ^ Zpos k)%Z
      | _ => hundredths m e = (100 * Zpos m * 2 ^ e)%Z
      end) /\
  (forall donor recipient received,
      true_positives ["g1"; "g2"] [(donor, "g1", recipient, received)] = 1 /\
      false_positives ["g1"; "g2"] [(donor, "g1", recipient, received)] = 1 /\
      false_negatives ["g1"; "g2"] [(donor, "g1", recipient, received)] = 0 /\
      compute_accuracy [(donor, "g1", recipient, received)]
                       [("toolX", ["g1"; "g2"])] ""
      = ("toolX" +:+ tab +:+ "0.50" +:+ tab +:+ "1.00" +:+ tab +:+ "0.67" +:+ nl,
         Ok tt)).
Proof.
  split; [|split; [|split; [|split; [|split]]]].
  - intros expected genes. rewrite exp_set_expected_genes.
    split; [|split]; reflexivity.
  - intros expected tool genes out Hne Hzero.
    now rewrite score_tool_cases, Hzero.
  - intros expected tool genes out Hne Hb Hc Htp.
    rewrite score_tool_cases, zero_denominator_no_true_positive by assumption.
    apply Nat.eqb_neq in Htp. now rewrite Htp.
  - intros expected observed out Hnone.
    now rewrite compute_accuracy_run, Hnone, before_fault_none.
  - exact hundredths_nearest.
  - intros donor recipient received.
    destruct (scenario_counts donor recipient received) as (H1 & H2 & H3).
    split; [exact H1 | split; [exact H2 | split; [exact H3 |]]].
    apply scenario_run.
Qed.

Lemma compute_accuracy_reports_metrics_witness :
  score_tool (exp_set [("a", "g1", "b", "g1b")]) "toolX" ["g1"; "g2"] ""
  = ("toolX" +:+ tab +:+ "0.50" +:+ tab +:+ "1.00" +:+ tab +:+ "0.67" +:+ nl,
     Ok tt) /\
  compute_accuracy [("a", "g1", "b", "g1b")]
                   [("toolY", []); ("toolX", ["g1"; "g2"; "g3"])] ""
  = ("toolX" +:+ tab +:+ "0.33" +:+ tab +:+ "1.00" +:+ tab +:+ "0.50" +:+ nl,
     Ok tt).
Proof.
  destruct compute_accuracy_reports_metrics as (_ & _ & Htool & Hrun & _ & _).
  split.
  - rewrite (Htool [("a", "g1", "b", "g1b")] "toolX" ["g1"; "g2"] "").
    + vm_compute. reflexivity.
    + discriminate.
    + vm_compute. reflexivity.
    + vm_compute. reflexivity.
    + vm_compute. discriminate.
  - rewrite (Hrun [("a", "g1", "b", "g1b")]
                  [("toolY", []); ("toolX", ["g1"; "g2"; "g3"])] "").
    + vm_compute. reflexivity.
    + vm_compute. reflexivity.
Defined.

(** C3: for a tool with a non-empty detection set, [compute_accuracy] raises
    [ZeroDivisionError] exactly when one of the denominators tp+fp, tp+fn
    and p+r is zero, and writes the line of the tool otherwise (tp+fp is
    never zero for such a tool); the whole run writes the lines up to the
    first tool with a zero denominator and stops there with
    [ZeroDivisionError], or ends without an error when there is none.  With
    counts below 2^53 a denominator is zero exactly when tp is zero. *)
Theorem zero_denominator_raises :
  (forall expected tool genes out,
      genes <> [] ->
      (zero_denominator genes expected = true ->
       score_tool (exp_set expected) tool genes out
       = (out, Raise ZeroDivisionError)) /\
      (zero_denominator genes expected = false ->
       score_tool (exp_set expected) tool genes out
       = (out +:+ report_line tool genes expected, Ok tt)) /\
      (score_tool (exp_set expected) tool genes out
       = (out, Raise ZeroDivisionError) <->
       zero_denominator genes expected = true) /\
      true_positives genes expected + false_positives genes expected <> 0) /\
  (forall expected observed out,
      compute_accuracy expected observed out =
      (out +:+ report expected (before_fault expected observed),
       if existsb (faulty expected) observed
       then Raise ZeroDivisionError else Ok tt)) /\
  (forall expected genes,
      genes <> [] ->
      (Z.of_nat (true_positives genes expected + false_positives genes expected)
       < 2 ^ 53)%Z ->
      (Z.of_nat (true_positives genes expected + false_negatives genes expected)
       < 2 ^ 53)%Z ->
      zero_denominator genes expected = (true_positives genes expected =? 0)).
Proof.
  split; [|split; [exact compute_accuracy_run |]];
    [|intros expected genes; apply zero_denominator_no_true_positive].
  intros expected tool genes out Hne.
  rewrite score_tool_cases by assumption.
  pose proof (detections_positive genes expected Hne) as Hpos.
  destruct (zero_denominator genes expected).
  - split; [reflexivity | split; [discriminate | split; [tauto | exact Hpos]]].
  - split; [discriminate | split; [reflexivity | split; [|exact Hpos]]].
    split; [intros H; inversion H | discriminate].
Qed.

Lemma zero_denominator_raises_witness :
  score_tool (exp_set [("a", "g1", "b", "g1b")]) "toolX" ["g2"] ""
  = ("", Raise ZeroDivisionError) /\
  score_tool (exp_set []) "toolX" ["g2"] "" = ("", Raise ZeroDivisionError) /\
  score_tool (exp_set [("a", "g1", "b", "g1b")]) "toolX" ["g1"] ""
  = ("toolX" +:+ tab +:+ "1.00" +:+ tab +:+ "1.00" +:+ tab +:+ "1.00" +:+ nl,
     Ok tt) /\
  zero_denominator ["g1"; "g2"] [("a", "g1", "b", "g1b")] = false.
Proof.
  destruct zero_denominator_raises as (Htool & _ & Hcount).
  split; [|split; [|split]];
    [| | |rewrite Hcount; [reflexivity | discriminate | | ];
          vm_compute; reflexivity].
  - apply (Htool [("a", "g1", "b", "g1b")] "toolX" ["g2"] "");
      [discriminate | vm_compute; reflexivity].
  - apply (Htool [] "toolX" ["g2"] "");
      [discriminate | vm_compute; reflexivity].
  - destruct (Htool [("a", "g1", "b", "g1b")] "toolX" ["g1"] "")
      as (_ & Hok & _); [discriminate|].
    rewrite Hok; vm_compute; reflexivity.
Defined.

(** ** Part III: more of the code *)

(** *** Pieces of a split *)

Lemma startswith_refl s : startswith s s = true.
Proof. apply startswith_prefix. exists "". now rewrite append_empty_r. Qed.

Lemma startswith_trans p w s :
  startswith p w = true -> startswith w s = true -> startswith p s = true.
Proof.
  rewrite !startswith_prefix. intros [r1 ->] [r2 ->].
  exists (r1 +:+ r2). apply append_assoc.
Qed.

(** A string without the separator is the only piece of its split. *)
Lemma split_on_absent sep s :
  contains sep s = false -> split_on sep s = [s].
Proof.
  unfold split_on. induction s as [|c s IH]; [reflexivity|].
  cbn [contains split_skip]. intros H. apply orb_false_iff in H as [Hp Hc].
  rewrite Hp, (IH Hc). reflexivity.
Qed.

(** The first piece of a split is the text before the first occurrence of
    the separator: it starts the string and does not hold the separator. *)
Lemma split_on_first sep s w ws :
  sep <> "" -> split_on sep s = w :: ws ->
  startswith w s = true /\ contains sep w = false.
Proof.
  intros Hsep. unfold split_on. revert w ws.
  induction s as [|c s IH]; intros w ws.
  - cbn. intros [= <- <-]. split; [reflexivity|].
    destruct sep; [congruence | reflexivity].
  - cbn [split_skip]. destruct (startswith sep (String c s)) eqn:Hp.
    + intros [= <- _]. split; [reflexivity|].
      destruct sep; [congruence | reflexivity].
    + destruct (split_skip sep 0 s) as [|w' ws'] eqn:E;
        [now apply split_skip_not_nil in E|].
      intros [= <- <-]. destruct (IH w' ws' eq_refl) as [Hpre Hno].
      split.
      * cbn [startswith]. now rewrite Ascii.eqb_refl.
      * cbn [contains]. rewrite Hno, orb_false_r.
        destruct (startswith sep (String c w')) eqn:Hw; [|reflexivity].
        rewrite <- Hp. symmetry. eapply startswith_trans; [exact Hw|].
        cbn [startswith]. now rewrite Ascii.eqb_refl.
Qed.

(** *** parse_output.py: RANGER-DTL *)

Lemma for_in_app_ok {St A B} (xs ys : list A) (body : B -> A -> M St B)
    acc s s' acc' :
  for_in xs body acc s = (s', Ok acc') ->
  for_in (xs ++ ys) body acc s = for_in ys body acc' s'.
Proof. intros H. now rewrite for_in_app, H. Qed.

(** X1: [parse_rangerdtl] stops with [IndexError] at the first line that
    holds its anchor but not ["Transfers: "]: the numbers of the lines before
    it are already written, nothing of the lines after it is, and [NaN] is not
    written either. *)
Theorem parse_rangerdtl_index_error pre bad post out :
  Forall (fun line => contains rangerdtl_string line = true ->
                      contains "Transfers: " line = true) pre ->
  contains rangerdtl_string bad = true ->
  contains "Transfers: " bad = false ->
  parse_rangerdtl (pre ++ bad :: post) out =
  (out +:+ String.concat ""
             (map rangerdtl_after (List.filter (contains rangerdtl_string) pre)),
   Raise IndexError).
Proof.
  intros Hpre Hbad Hno. unfold parse_rangerdtl. unfold bind at 1.
  erewrite for_in_app_ok; cycle 1.
  { apply scan_lines with (after := rangerdtl_after)
      (extract := fun line =>
         rbind (index (split_on "Transfers: " line) 1)
               (fun x => index (split_on "," x) 0)).
    eapply Forall_impl; [exact Hpre|]. cbn beta. intros line Hl Hc.
    apply rangerdtl_extract_ok. auto. }
  cbn [for_in]. unfold bind at 1. rewrite Hbad.
  unfold bind at 1, lift. rewrite (split_on_absent _ _ Hno). reflexivity.
Qed.

Lemma parse_rangerdtl_index_error_witness :
  parse_rangerdtl
    ["The minimum reconciliation cost is: 4 (Duplications: 1, Transfers: 2, Losses: 1)" +:+ nl;
     "The minimum reconciliation cost is: 7" +:+ nl;
     "The minimum reconciliation cost is: 9 (Duplications: 1, Transfers: 5, Losses: 1)" +:+ nl]
    "" = ("2", Raise IndexError).
Proof.
  apply (parse_rangerdtl_index_error
           ["The minimum reconciliation cost is: 4 (Duplications: 1, Transfers: 2, Losses: 1)" +:+ nl]
           ("The minimum reconciliation cost is: 7" +:+ nl)
           ["The minimum reconciliation cost is: 9 (Duplications: 1, Transfers: 5, Losses: 1)" +:+ nl]
           "").
  - repeat constructor.
  - reflexivity.
  - reflexivity.
Defined.

(** *** parse_output.py: what is written for a line *)

Lemma rstrip_idempotent s : rstrip (rstrip s) = rstrip s.
Proof.
  induction s as [|c s IH]; [reflexivity|]. cbn [rstrip].
  destruct (rstrip s) as [|c' r] eqn:E.
  - destruct (isspace c) eqn:Hc; [reflexivity|]. cbn. now rewrite Hc.
  - cbn [rstrip]. cbn [rstrip] in IH. rewrite IH. reflexivity.
Qed.

Lemma lstrip_fixed_rstrip s : lstrip s = s -> lstrip (rstrip s) = rstrip s.
Proof.
  destruct s as [|c s]; [reflexivity|]. cbn [lstrip rstrip].
  destruct (isspace c) eqn:Hc.
  - intros H. exfalso.
    assert (Hlen : forall t, String.length (lstrip t) <= String.length t).
    { induction t as [|x t IHt]; cbn; [lia|]. destruct (isspace x); cbn; lia. }
    pose proof (Hlen s) as Hs. rewrite H in Hs. cbn in Hs. lia.
  - intros _. destruct (rstrip s); cbn; now rewrite Hc.
Qed.

Lemma lstrip_idempotent s : lstrip (lstrip s) = lstrip s.
Proof.
  induction s as [|c s IH]; [reflexivity|]. cbn [lstrip].
  destruct (isspace c) eqn:Hc; [exact IH|]. cbn. now rewrite Hc.
Qed.

(** A stripped string has no whitespace left at either end. *)
Lemma strip_stripped s :
  lstrip (strip s) = strip s /\ rstrip (strip s) = strip s.
Proof.
  unfold strip. split.
  - apply lstrip_fixed_rstrip, lstrip_idempotent.
  - apply rstrip_idempotent.
Qed.

(** A parser on a file of one line. *)
Lemma scan_one anchor (extract : string -> res string) line out :
  bind (for_in [line]
          (fun (out_str : bool) line =>
             if contains anchor line then
               bind (lift (extract line))
                    (fun number_hgts =>
                       bind (stdout_write number_hgts) (fun _ => ret true))
             else ret out_str) false)
       (fun out_str => if negb out_str then stdout_write "NaN" else ret tt) out =
  if contains anchor line then
    match extract line with
    | Ok w => (out +:+ w, Ok tt)
    | Raise e => (out, Raise e)
    end
  else (out +:+ "NaN", Ok tt).
Proof.
  cbn [for_in]. unfold bind, lift, ret, stdout_write.
  destruct (contains anchor line); [|reflexivity].
  destruct (extract line); reflexivity.
Qed.

(** X2: what a parser writes for a file of one line.  The text written by
    [parse_trex] and [parse_jane4] has no whitespace at its ends (so no line
    terminator); the text written by [parse_rangerdtl] holds no comma and
    that of [parse_riatahgt] no [" component(s)"]. *)
Theorem written_text_is_clean line w :
  (parse_trex [line] "" = (w, Ok tt) \/ parse_jane4 [line] "" = (w, Ok tt) ->
   lstrip w = w /\ rstrip w = w) /\
  (parse_rangerdtl [line] "" = (w, Ok tt) -> contains "," w = false) /\
  (parse_riatahgt [line] "" = (w, Ok tt) ->
   contains " component(s)" w = false).
Proof.
  split; [|split].
  - unfold parse_trex, parse_jane4.
    rewrite (scan_one trex_string
               (fun line => rbind (index (split_on trex_string line) 1)
                                  (fun x => Ok (strip x)))),
            (scan_one jane4_string
               (fun line => rbind (index (split_on jane4_string line) 1)
                                  (fun x => Ok (strip x)))).
    intros [H|H];
      destruct (contains _ line);
      try (injection H as <-; split; reflexivity);
      unfold index in H; destruct (_ !! 1) as [x|]; try discriminate;
      cbn in H; injection H as <-; apply strip_stripped.
  - unfold parse_rangerdtl.
    rewrite (scan_one rangerdtl_string
               (fun line => rbind (index (split_on "Transfers: " line) 1)
                                  (fun x => index (split_on "," x) 0))).
    destruct (contains _ line); [|intros [= <-]; reflexivity].
    unfold index. destruct (_ !! 1) as [x|]; [|discriminate]. cbn [rbind].
    destruct (split_on "," x) as [|p ps] eqn:E; [discriminate|].
    cbn. intros [= <-].
    now destruct (split_on_first "," x p ps ltac:(discriminate) E).
  - unfold parse_riatahgt.
    rewrite (scan_one riatahgt_string
               (fun line => rbind (index (split_on riatahgt_string line) 1)
                                  (fun x => index (split_on " component(s)" x) 0))).
    destruct (contains _ line); [|intros [= <-]; reflexivity].
    unfold index. destruct (_ !! 1) as [x|]; [|discriminate]. cbn [rbind].
    destruct (split_on " component(s)" x) as [|p ps] eqn:E; [discriminate|].
    cbn. intros [= <-].
    now destruct (split_on_first " component(s)" x p ps ltac:(discriminate) E).
Qed.

Lemma written_text_is_clean_witness :
  lstrip "3" = "3" /\ rstrip "3" = "3" /\ contains "," "2" = false /\
  contains " component(s)" "4" = false.
Proof.
  destruct (written_text_is_clean
              ("hgt : number of HGT(s) found = 3 " +:+ nl) "3") as (H1 & _ & _).
  destruct (written_text_is_clean
              "The minimum reconciliation cost is: 4 (Duplications: 1, Transfers: 2, Losses: 1)"
              "2") as (_ & H2 & _).
  destruct (written_text_is_clean
              "There are 4 component(s), which account(s) for 4 HGT(s)" "4")
    as (_ & _ & H3).
  destruct H1 as [Ha Hb]; [left; reflexivity|].
  split; [exact Ha | split; [exact Hb | split]].
  - apply H2. reflexivity.
  - apply H3. reflexivity.
Defined.

(** *** reformat_input.py: the sequence identifiers *)


(** *** reformat_input.py: what trimming does to a tree *)

Lemma trim_name_first_token n :
  match first_token n with
  | Some x => trim_name n = Ok (Some x)
  | None => exists e, trim_name n = Raise e
  end.
Proof.
  destruct n as [s|]; cbn; [|eauto]. unfold index.
  destruct (split s) as [|w ws]; cbn; eauto.
Qed.

Lemma leaves_children n l c cs :
  leaves (Node n l (c :: cs)) = flat_map leaves (c :: cs).
Proof. reflexivity. Qed.

(** Trimming the nodes of a list renames their leaves to the first tokens. *)
Lemma trim_all_leaves cs :
  Forall (fun t => forall t', trim_below t = Ok t' ->
                   map name (leaves t') = map first_token (map name (leaves t))) cs ->
  forall cs', trim_all cs = Ok cs' ->
    map name (flat_map leaves cs') =
    map first_token (map name (flat_map leaves cs)).
Proof.
  induction 1 as [|c cs Hc _ IH]; intros r.
  - intros [= <-]. reflexivity.
  - intros Hr. apply trim_all_cons_inv in Hr as (c' & cs' & -> & H1 & H2).
    cbn [flat_map]. rewrite !map_app, (Hc _ H1), (IH _ H2). reflexivity.
Qed.

Lemma trim_below_leaves t t' :
  trim_below t = Ok t' ->
  map name (leaves t') = map first_token (map name (leaves t)).
Proof.
  revert t'. induction t as [n l cs IH] using TreeNode_rect_children.
  intros t'. destruct cs as [|c cs].
  - cbn [trim_below]. pose proof (trim_name_first_token n) as Hn.
    destruct (trim_name n) as [n'|] eqn:E; [|discriminate].
    cbn. intros [= <-]. cbn.
    destruct (first_token n) as [x|]; [congruence | now destruct Hn].
  - rewrite trim_below_children.
    destruct (trim_all (c :: cs)) as [r|] eqn:E; [|discriminate]. cbn.
    intros [= <-]. pose proof (trim_all_leaves _ IH _ E) as Hr.
    apply trim_all_cons_inv in E as (c' & cs' & -> & _ & _).
    rewrite !leaves_children. exact Hr.
Qed.

(** Trimming succeeds on the nodes whose leaves all have a first token. *)
Lemma trim_all_succeeds cs :
  Forall (fun t => Forall (fun n => is_Some (first_token n)) (map name (leaves t)) ->
                   exists t', trim_below t = Ok t') cs ->
  Forall (fun n => is_Some (first_token n)) (map name (flat_map leaves cs)) ->
  exists cs', trim_all cs = Ok cs'.
Proof.
  induction 1 as [|c cs Hc _ IH]; [eauto|].
  cbn [flat_map]. rewrite map_app, Forall_app. intros [H1 H2].
  destruct (Hc H1) as [c' Hc']. destruct (IH H2) as [cs' Hcs'].
  exists (c' :: cs'). cbn [trim_all]. now rewrite Hc', Hcs'.
Qed.

Lemma trim_below_succeeds t :
  Forall (fun n => is_Some (first_token n)) (map name (leaves t)) ->
  exists t', trim_below t = Ok t'.
Proof.
  induction t as [n l cs IH] using TreeNode_rect_children.
  destruct cs as [|c cs].
  - cbn. intros H. apply Forall_cons in H as [[x Hx] _].
    pose proof (trim_name_first_token n) as Hn. rewrite Hx in Hn.
    rewrite Hn. cbn. eauto.
  - rewrite leaves_children, trim_below_children. intros H.
    destruct (trim_all_succeeds _ IH H) as [cs' ->]. cbn. eauto.
Qed.

Lemma trim_all_tokens cs :
  Forall (fun t => forall t', trim_below t = Ok t' ->
            Forall (fun n => is_Some (first_token n)) (map name (leaves t))) cs ->
  forall cs', trim_all cs = Ok cs' ->
    Forall (fun n => is_Some (first_token n)) (map name (flat_map leaves cs)).
Proof.
  induction 1 as [|c cs Hc _ IH]; intros r.
  - intros _. constructor.
  - intros Hr. apply trim_all_cons_inv in Hr as (c' & cs' & -> & H1 & H2).
    cbn [flat_map]. rewrite map_app, Forall_app. eauto.
Qed.

Lemma trim_below_tokens t t' :
  trim_below t = Ok t' ->
  Forall (fun n => is_Some (first_token n)) (map name (leaves t)).
Proof.
  revert t'. induction t as [n l cs IH] using TreeNode_rect_children.
  intros t'. destruct cs as [|c cs].
  - cbn [trim_below]. pose proof (trim_name_first_token n) as Hn.
    destruct (first_token n) as [x|] eqn:E.
    + intros _. cbn. repeat constructor. rewrite E. eauto.
    + destruct Hn as [e ->]. discriminate.
  - rewrite trim_below_children, leaves_children.
    destruct (trim_all (c :: cs)) as [r|] eqn:E; [|discriminate].
    intros _. exact (trim_all_tokens _ IH _ E).
Qed.

(** X4: [trim_gene_tree_leaves] succeeds exactly on the trees whose tips all
    have a name with a token in it (a tip without a name, or with a blank
    one, makes it raise), and then the names of the tips of the result are
    the first tokens of the names they had, in the same order. *)
Theorem trim_gene_tree_leaves_tokens gene_tree :
  ((exists trimmed, trim_gene_tree_leaves gene_tree = Ok trimmed) <->
   Forall (fun n => is_Some (first_token n)) (tip_names gene_tree)) /\
  (forall trimmed,
      trim_gene_tree_leaves gene_tree = Ok trimmed ->
      tip_names trimmed = map first_token (tip_names gene_tree)).
Proof.
  destruct gene_tree as [n l cs]. unfold tip_names, tips. cbn [children].
  assert (Hsucc : Forall (fun t =>
            Forall (fun n => is_Some (first_token n)) (map name (leaves t)) ->
            exists t', trim_below t = Ok t') cs)
    by (apply Forall_forall; intros t _; apply trim_below_succeeds).
  assert (Htok : Forall (fun t => forall t', trim_below t = Ok t' ->
            Forall (fun n => is_Some (first_token n)) (map name (leaves t))) cs)
    by (apply Forall_forall; intros t _; apply trim_below_tokens).
  assert (Hnames : Forall (fun t => forall t', trim_below t = Ok t' ->
            map name (leaves t') = map first_token (map name (leaves t))) cs)
    by (apply Forall_forall; intros t _; apply trim_below_leaves).
  cbn [trim_gene_tree_leaves]. split; [split|].
  - intros [trimmed H]. destruct (trim_all cs) as [cs'|] eqn:E; [|discriminate].
    exact (trim_all_tokens _ Htok _ E).
  - intros H. destruct (trim_all_succeeds _ Hsucc H) as [cs' ->]. cbn. eauto.
  - intros trimmed. destruct (trim_all cs) as [cs'|] eqn:E; [|discriminate].
    cbn. intros [= <-]. cbn [children]. exact (trim_all_leaves _ Hnames _ E).
Qed.

Lemma trim_gene_tree_leaves_tokens_witness :
  tip_names (Node None None [Node (Some "sp1") None [];
                             Node None None [Node (Some "sp2") None []]])
  = map first_token
      (tip_names (Node None None [Node (Some "sp1 g1") None [];
                                  Node None None [Node (Some "sp2 g2 x") None []]])).
Proof.
  apply trim_gene_tree_leaves_tokens. reflexivity.
Defined.

(** *** reformat_input.py: branch lengths *)

Lemma strip_lengths_leaves t :
  map name (leaves (strip_lengths t)) = map name (leaves t).
Proof.
  induction t as [n l cs IH] using TreeNode_rect_children.
  destruct cs as [|c cs]; [reflexivity|].
  cbn [strip_lengths map]. rewrite !leaves_children.
  apply Forall_cons in IH as [Hc Hcs]. cbn [flat_map]. rewrite !map_app, Hc.
  f_equal. clear Hc. induction Hcs as [|x xs Hx _ IHxs]; [reflexivity|].
  cbn [map flat_map]. now rewrite !map_app, Hx, IHxs.
Qed.

Lemma strip_lengths_idempotent t :
  strip_lengths (strip_lengths t) = strip_lengths t.
Proof.
  induction t as [n l cs IH] using TreeNode_rect_children.
  cbn [strip_lengths]. f_equal. rewrite map_map.
  induction IH as [|c cs Hc _ IHcs]; [reflexivity|].
  cbn [map]. now rewrite Hc, IHcs.
Qed.

Lemma trim_all_strip_lengths cs :
  Forall (fun t => trim_below (strip_lengths t) =
                   match trim_below t with
                   | Ok t' => Ok (strip_lengths t')
                   | Raise e => Raise e
                   end) cs ->
  trim_all (map strip_lengths cs) =
  match trim_all cs with
  | Ok cs' => Ok (map strip_lengths cs')
  | Raise e => Raise e
  end.
Proof.
  induction 1 as [|c cs Hc _ IH]; [reflexivity|].
  cbn [map trim_all]. rewrite Hc, IH.
  destruct (trim_below c); [|reflexivity]. cbn.
  destruct (trim_all cs); reflexivity.
Qed.

Lemma trim_below_strip_lengths t :
  trim_below (strip_lengths t) =
  match trim_below t with
  | Ok t' => Ok (strip_lengths t')
  | Raise e => Raise e
  end.
Proof.
  induction t as [n l cs IH] using TreeNode_rect_children.
  destruct cs as [|c cs].
  - cbn. destruct (trim_name n); reflexivity.
  - cbn [strip_lengths map]. rewrite !trim_below_children.
    change (strip_lengths c :: map strip_lengths cs)
      with (map strip_lengths (c :: cs)).
    rewrite (trim_all_strip_lengths _ IH).
    destruct (trim_all (c :: cs)); reflexivity.
Qed.

(** X5: removing the branch lengths, as [reformat_jane4] does for every
    node, keeps the names of the tips, is idempotent, and commutes with the
    trimming of the gene tree: trimming first and removing the lengths after,
    as the script does, gives the tree that the other order would give, with
    the same exception when trimming fails. *)
Theorem strip_lengths_commutes_with_trimming t :
  tip_names (strip_lengths t) = tip_names t /\
  strip_lengths (strip_lengths t) = strip_lengths t /\
  trim_gene_tree_leaves (strip_lengths t) =
  match trim_gene_tree_leaves t with
  | Ok t' => Ok (strip_lengths t')
  | Raise e => Raise e
  end.
Proof.
  split; [|split; [apply strip_lengths_idempotent|]].
  - destruct t as [n l cs]. unfold tip_names, tips. cbn [strip_lengths children].
    induction cs as [|c cs IH]; [reflexivity|].
    cbn [map flat_map]. now rewrite !map_app, strip_lengths_leaves, IH.
  - destruct t as [n l cs]. cbn [strip_lengths trim_gene_tree_leaves].
    rewrite trim_all_strip_lengths.
    + destruct (trim_all cs); reflexivity.
    + apply Forall_forall. intros t _. apply trim_below_strip_lengths.
Qed.

(** *** reformat_input.py: what the mapping holds *)

Lemma dict_get_elem {V} (k : option string) (d : dict (option string) V) v :
  dict_get k d = Some v -> (k, v) ∈ d.
Proof.
  induction d as [|[k' v'] d IH]; cbn; [discriminate|].
  destruct (decide (k' = k)) as [->|_].
  - intros [= ->]. left.
  - intros H. right. auto.
Qed.

Lemma dict_set_Forall {V} (P : option string * V -> Prop) k v
    (d : dict (option string) V) :
  Forall P d -> P (k, v) -> Forall P (dict_set k v d).
Proof.
  intros Hd Hkv. induction Hd as [|[k' v'] d Hx Hd IH]; cbn.
  - repeat constructor. exact Hkv.
  - destruct (decide (k' = k)); constructor; assumption.
Qed.

(** The number of values of a mapping. *)
Local Abbreviation entries d := (length (concat (d.*2))).

Lemma dict_set_append_entries (k : option string) x l
    (d : dict (option string) (list string)) :
  dict_get k d = Some l ->
  entries (dict_set k (l ++ [x]) d) = S (entries d).
Proof.
  induction d as [|[k' v'] d IH]; cbn; [discriminate|].
  destruct (decide (k' = k)) as [->|_].
  - intros [= ->]. cbn. rewrite !length_app. cbn. lia.
  - intros H. cbn. rewrite !length_app, (IH H). lia.
Qed.

Lemma gene_step_inv (d d' : dict (option string) (list string)) node :
  gene_body d node = Ok d' ->
  exists species l,
    dict_get (Some species) d = Some l /\
    d' = dict_set (Some species) (l ++ [species]) d /\
    resolves d.*1 (name node) = true.
Proof.
  destruct (resolves d.*1 (name node)) eqn:Hres.
  - unfold resolves in Hres. unfold unpack2.
    destruct (name node) as [s|]; [|discriminate].
    destruct (split s) as [|sp [|ge [|x r]]]; try discriminate. cbn.
    destruct (dict_get (Some sp) d) as [l|] eqn:Hl; [|discriminate].
    intros [= <-]. eauto.
  - destruct (gene_step_fail d node Hres) as (e & -> & _). discriminate.
Qed.

Lemma gene_loop_inv (nodes : list TreeNode)
    (d d' : dict (option string) (list string)) :
  rfor_in nodes gene_body d = Ok d' ->
  Forall (fun '(k, v) => Forall (fun x => k = Some x) v) d ->
  Forall (fun '(k, v) => Forall (fun x => k = Some x) v) d' /\
  entries d' = entries d + length nodes /\
  Forall (fun node => resolves d.*1 (name node) = true) nodes /\
  d'.*1 = d.*1.
Proof.
  revert d. induction nodes as [|node nodes IH]; intros d.
  - cbn. intros [= <-] Hd.
    split; [exact Hd | split; [lia | split; [constructor | reflexivity]]].
  - destruct (gene_body d node) as [d1|e] eqn:Hstep;
      cbn [rfor_in]; cbn beta in Hstep; rewrite Hstep; cbn [rbind];
      [|discriminate].
    intros Hloop Hd.
    destruct (gene_step_inv _ _ _ Hstep) as (sp & l & Hget & -> & Hres).
    assert (Hkey : Some sp ∈ d.*1).
    { apply dict_get_elem in Hget. apply list_elem_of_fmap.
      exists (Some sp, l). split; [reflexivity | exact Hget]. }
    destruct (IH _ Hloop) as (Hall & Hcount & Hrest & Hkeys).
    + apply dict_set_Forall; [exact Hd|].
      apply dict_get_elem in Hget.
      rewrite Forall_forall in Hd. specialize (Hd _ Hget). cbn in Hd.
      apply Forall_app. split; [exact Hd | repeat constructor].
    + rewrite dict_set_keys in Hrest, Hkeys by exact Hkey.
      split; [exact Hall|]. split; [|split; [|exact Hkeys]].
      * rewrite Hcount, (dict_set_append_entries _ _ _ _ Hget). cbn. lia.
      * constructor; [exact Hres | exact Hrest].
Qed.

Lemma empty_entries_none (nodes : list TreeNode) :
  entries (map (fun node => (name node, @nil string)) nodes) = 0.
Proof. induction nodes as [|x xs IH]; [reflexivity | exact IH]. Qed.

(** The invariants of a mapping that was built. *)
Lemma species_gene_mapping_inv gene_tree species_tree m :
  species_gene_mapping gene_tree species_tree = Ok m ->
  m.*1 = tip_names species_tree /\
  NoDup (tip_names species_tree) /\
  Forall (fun '(k, v) => Forall (fun x => k = Some x) v) m /\
  length (concat m.*2) = length (tips gene_tree) /\
  Forall (fun n => resolves (tip_names species_tree) n = true)
         (tip_names gene_tree).
Proof.
  intros Hm.
  destruct (decide (NoDup (tip_names species_tree))) as [Hnd|Hdup];
    [|destruct (species_gene_mapping_dup gene_tree species_tree Hdup) as [msg H];
      congruence].
  unfold species_gene_mapping in Hm.
  rewrite (species_loop_ok (tips species_tree) []) in Hm by exact Hnd.
  cbn [rbind app] in Hm.
  destruct (gene_loop_inv _ _ _ Hm) as (Hall & Hcount & Hres & Hkeys).
  { apply Forall_forall. intros [k v] Hin.
    apply list_elem_of_fmap in Hin as (node & Heq & _).
    cbn in Heq. injection Heq as -> ->. constructor. }
  rewrite empty_entries_keys in Hres, Hkeys.
  split; [exact Hkeys|].
  split; [exact Hnd|]. split; [exact Hall|]. split.
  - now rewrite Hcount, empty_entries_none.
  - unfold tip_names. apply Forall_fmap. exact Hres.
Qed.



(** *** reformat_input.py: the text of the mapping *)

Lemma substring_prefix (a b : string) :
  String.substring 0 (String.length a) (a +:+ b) = a.
Proof.
  induction a as [|c a IH]; [destruct b; reflexivity|].
  rewrite append_cons. cbn [String.length String.substring]. now rewrite IH.
Qed.

(** [s[:-n]] takes a suffix of [n] characters off. *)
Lemma drop_last_append (a b : string) :
  drop_last (String.length b) (a +:+ b) = a.
Proof.
  unfold drop_last. rewrite length_append.
  replace (String.length a + String.length b - String.length b)
    with (String.length a) by lia.
  apply substring_prefix.
Qed.

Lemma genes_fold_left (species : option string) genes acc :
  fold_left
    (fun mapping_str gene =>
       mapping_str +:+ str_name species +:+ ":" +:+ gene +:+ ", ")
    genes acc
  = acc +:+ String.concat ""
              (map (fun p => p +:+ ", ")
                   (map (fun gene => str_name species +:+ ":" +:+ gene) genes)).
Proof.
  revert acc. induction genes as [|g genes IH]; intros acc.
  - cbn. now rewrite append_empty_r.
  - cbn [fold_left map]. rewrite IH, concat_cons, !append_assoc. reflexivity.
Qed.

Lemma mapping_fold_left (d : dict (option string) (list string)) acc :
  fold_left
    (fun mapping_str '(species, genes) =>
       fold_left
         (fun mapping_str gene =>
            mapping_str +:+ str_name species +:+ ":" +:+ gene +:+ ", ")
         genes mapping_str)
    d acc
  = acc +:+ String.concat "" (map (fun p => p +:+ ", ") (mapping_pairs d)).
Proof.
  revert acc. induction d as [|[k genes] d IH]; intros acc.
  - cbn. now rewrite append_empty_r.
  - cbn [fold_left]. rewrite IH, genes_fold_left. unfold mapping_pairs.
    cbn [flat_map]. rewrite map_app, append_assoc. f_equal.
    generalize (map (fun gene => str_name k +:+ ":" +:+ gene) genes).
    intros ps. induction ps as [|p ps IHps]; [reflexivity|].
    cbn [map app]. now rewrite !concat_cons, append_assoc, IHps.
Qed.

Lemma concat_separated (ps : list string) :
  ps <> [] ->
  String.concat "" (map (fun p => p +:+ ", ") ps) = join ", " ps +:+ ", ".
Proof.
  induction ps as [|p ps IH]; [congruence|]. intros _.
  cbn [map]. rewrite concat_cons. destruct ps as [|q ps].
  - cbn. now rewrite append_empty_r.
  - rewrite IH by discriminate.
    change (join ", " (p :: q :: ps)) with (p +:+ ", " +:+ join ", " (q :: ps)).
    now rewrite !append_assoc.
Qed.

(** The text put in place of [MAPPING]: the pairs joined by [", "]. *)
Lemma mapping_text (d : dict (option string) (list string)) :
  drop_last 2 (build_mapping_str d) = join ", " (mapping_pairs d).
Proof.
  unfold build_mapping_str. rewrite mapping_fold_left, append_empty_l.
  destruct (mapping_pairs d) as [|p ps] eqn:E; [reflexivity|].
  rewrite concat_separated by discriminate.
  apply (drop_last_append _ ", ").
Qed.



(** *** reformat_input.py: what is written, and where *)

Lemma resolves_first_token species n :
  resolves species n = true -> is_Some (first_token n).
Proof.
  unfold resolves, first_token. destruct n as [s|]; [|discriminate].
  destruct (split s) as [|sp rest]; [discriminate|]. cbn. eauto.
Qed.

Lemma trim_gene_tree_leaves_succeeds gene_tree :
  Forall (fun n => is_Some (first_token n)) (tip_names gene_tree) ->
  exists trimmed, trim_gene_tree_leaves gene_tree = Ok trimmed.
Proof.
  destruct gene_tree as [n l cs]. unfold tip_names, tips. cbn [children].
  intros H. cbn [trim_gene_tree_leaves].
  destruct (trim_all_succeeds cs) as [cs' ->]; [|exact H|cbn; eauto].
  apply Forall_forall. intros t _. apply trim_below_succeeds.
Qed.

(** Once the mapping is built, trimming the gene tree cannot fail. *)
Lemma mapping_then_trimming gene_tree species_tree m :
  species_gene_mapping gene_tree species_tree = Ok m ->
  exists trimmed, trim_gene_tree_leaves gene_tree = Ok trimmed.
Proof.
  intros Hm. apply trim_gene_tree_leaves_succeeds.
  destruct (species_gene_mapping_inv _ _ _ Hm) as (_ & _ & _ & _ & Hres).
  eapply Forall_impl; [exact Hres|]. intros n. apply resolves_first_token.
Qed.

Section WritersFacts.

Variable str : TreeNode -> string.

Lemma reformat_jane4_cases gene_tree species_tree output_tree_fp (fs : files) :
  match species_gene_mapping gene_tree species_tree with
  | Raise e =>
      reformat_jane4 str gene_tree species_tree output_tree_fp fs
      = (fs, Raise e)
  | Ok m =>
      exists trimmed,
        trim_gene_tree_leaves gene_tree = Ok trimmed /\
        reformat_jane4 str gene_tree species_tree output_tree_fp fs
        = (<[output_tree_fp :=
               replace
                 (replace
                    (replace jane4_nexus_file "SPECIES_TREE"
                       (str (strip_lengths species_tree)))
                    "GENE_TREE" (str (strip_lengths trimmed)))
                 "MAPPING" (join ", " (mapping_pairs m))]> fs,
           Ok tt)
  end.
Proof.
  destruct (species_gene_mapping gene_tree species_tree) as [m|e] eqn:Hm.
  - destruct (mapping_then_trimming _ _ _ Hm) as [trimmed Ht].
    exists trimmed. split; [exact Ht|].
    unfold reformat_jane4, bind, lift, write_file. rewrite Hm, Ht.
    now rewrite mapping_text.
  - unfold reformat_jane4, bind, lift. now rewrite Hm.
Qed.


(** X9: [reformat_rangerdtl], [reformat_riatahgt] and [reformat_jane4] never
    change a file other than the output file, and when they raise they have
    changed no file at all. *)
Theorem writers_touch_only_the_output gene_tree species_tree output_tree_fp
    (fs : files) :
  let runs :=
    [reformat_rangerdtl str gene_tree species_tree output_tree_fp fs;
     reformat_riatahgt str gene_tree species_tree output_tree_fp fs;
     reformat_jane4 str gene_tree species_tree output_tree_fp fs] in
  Forall (fun run =>
            (forall fp, fp <> output_tree_fp -> fst run !! fp = fs !! fp) /\
            (snd run <> Ok tt -> fst run = fs)) runs.
Proof.
  cbv zeta. repeat constructor.
  - intros fp Hfp. cbn. now rewrite lookup_insert_ne.
  - cbn. congruence.
  - intros fp Hfp. unfold reformat_riatahgt, bind, lift, write_file.
    destruct (trim_gene_tree_leaves gene_tree); cbn; [|reflexivity].
    now rewrite lookup_insert_ne.
  - unfold reformat_riatahgt, bind, lift, write_file.
    destruct (trim_gene_tree_leaves gene_tree); cbn; congruence.
  - intros fp Hfp.
    pose proof (reformat_jane4_cases gene_tree species_tree output_tree_fp fs) as H.
    destruct (species_gene_mapping gene_tree species_tree).
    + destruct H as (trimmed & _ & ->). cbn. now rewrite lookup_insert_ne.
    + now rewrite H.
  - pose proof (reformat_jane4_cases gene_tree species_tree output_tree_fp fs) as H.
    destruct (species_gene_mapping gene_tree species_tree).
    + destruct H as (trimmed & _ & ->). cbn. congruence.
    + now rewrite H.
Qed.

End WritersFacts.

Lemma writers_touch_only_the_output_witness :
  let str := fun t => String.concat "," (map str_name (tip_names t)) +:+ ";" in
  fst (reformat_riatahgt str
         (Node None None [Node (Some "sp1 g1") None []])
         (Node None None [Node (Some "sp1") None []])
         "out.nex" {["other.txt" := "kept"]}) !! "other.txt" = Some "kept".
Proof.
  cbv zeta.
  pose proof (writers_touch_only_the_output
                (fun t => String.concat "," (map str_name (tip_names t)) +:+ ";")
                (Node None None [Node (Some "sp1 g1") None []])
                (Node None None [Node (Some "sp1") None []])
                "out.nex" {["other.txt" := "kept"]}) as H.
  cbv zeta in H. apply Forall_cons in H as [_ H].
  apply Forall_cons in H as [[H _] _].
  rewrite (H "other.txt"); [reflexivity | discriminate].
Defined.

(** *** compute_accuracy.py: the counts *)

Lemma counts_sizes genes expected :
  true_positives genes expected + false_positives genes expected
  = size (detected_set genes) /\
  true_positives genes expected + false_negatives genes expected
  = size (expected_genes expected).
Proof.
  unfold true_positives, false_positives, false_negatives.
  split; rewrite <- size_union by set_solver; f_equal;
    apply set_eq; intros x.
  - destruct (decide (x ∈ expected_genes expected)); set_solver.
  - destruct (decide (x ∈ detected_set genes)); set_solver.
Qed.

Lemma no_expected_zero_denominator genes :
  zero_denominator genes [] = true.
Proof.
  unfold zero_denominator.
  destruct (counts_sizes genes []) as [_ ->].
  change (expected_genes []) with (∅ : gset string).
  rewrite size_empty. cbn [Nat.eqb]. now rewrite orb_true_r.
Qed.

(** X10: the denominator of the precision is the number of distinct genes
    the tool detected and the denominator of the recall the number of
    distinct genes donated in the expected transfers.  So with no expected
    transfer [compute_accuracy] writes nothing: it raises
    [ZeroDivisionError] at the first tool with a detection, and ends without
    an error only when no tool detected anything. *)
Theorem empty_ground_truth_raises :
  (forall genes expected,
      true_positives genes expected + false_positives genes expected
      = size (detected_set genes) /\
      true_positives genes expected + false_negatives genes expected
      = size (expected_genes expected)) /\
  (forall observed out,
      compute_accuracy [] observed out =
      (out, if existsb nonempty observed
            then Raise ZeroDivisionError else Ok tt)).
Proof.
  split; [exact counts_sizes|].
  intros observed. induction observed as [|[tool genes] rest IH]; intros out.
  - reflexivity.
  - rewrite compute_accuracy_cons. destruct genes as [|g genes].
    + rewrite score_tool_empty, IH. reflexivity.
    + rewrite score_tool_cases, no_expected_zero_denominator by discriminate.
      reflexivity.
Qed.

Lemma same_elements_same_set (l l' : list string) :
  (forall x, x ∈ l <-> x ∈ l') ->
  (list_to_set l : gset string) = list_to_set l'.
Proof. intros H. apply set_eq. intros x. rewrite !elem_of_list_to_set. apply H. Qed.

(** X11: the line of a tool depends on the detected genes and on the
    expected transfers only through the set of detected genes and the set
    of donated genes: the order of the genes, a gene listed twice, the order
    of the transfers and their donor, recipient and received gene do not
    matter. *)
Theorem score_depends_on_sets expected expected' genes genes' tool out :
  (forall x, x ∈ genes <-> x ∈ genes') ->
  (forall x, x ∈ map gene_donated expected <-> x ∈ map gene_donated expected') ->
  score_tool (exp_set expected) tool genes out
  = score_tool (exp_set expected') tool genes' out.
Proof.
  intros Hg He. rewrite !exp_set_expected_genes. unfold expected_genes, score_tool.
  now rewrite (same_elements_same_set _ _ Hg), (same_elements_same_set _ _ He).
Qed.

Lemma score_depends_on_sets_witness :
  score_tool (exp_set [("a", "g1", "b", "h1"); ("c", "g2", "d", "h2")])
             "toolX" ["g1"; "g3"; "g1"] ""
  = score_tool (exp_set [("x", "g2", "y", "z"); ("x", "g1", "y", "z");
                         ("u", "g2", "v", "w")])
               "toolX" ["g3"; "g1"] "".
Proof.
  apply score_depends_on_sets; intros x; split; intros H;
    repeat (apply elem_of_cons in H as [->|H]; [compute_done|]);
    now apply elem_of_nil in H.
Defined.

(** *** compute_accuracy.py: a tool that is right *)

(** A count below 2^53 divided by itself is the float one. *)
Lemma quotient_self n :
  (0 < Z.of_nat n < 2 ^ 53)%Z ->
  SFdiv prec emax (float_of_nat n) (float_of_nat n) = float_of_Z 1.
Proof.
  intros Hn. destruct (float_of_nat_finite n Hn) as (m & e & -> & Hd & He).
  unfold SFdiv, SFdiv_core_binary. cbn [Zdigits2 xorb]. rewrite Hd.
  replace (Z.min (fexp prec emax (prec + e - (prec + e))) (e - e))
    with (-53)%Z
    by (unfold fexp, SpecFloat.emin, prec, emax; lia).
  replace (e - e - -53)%Z with 53%Z by lia.
  pose proof (Z_div_mod (Z.shiftl (Zpos m) 53) (Zpos m) ltac:(lia)) as Hdiv.
  destruct (Z.div_eucl (Z.shiftl (Zpos m) 53) (Zpos m)) as [q r].
  destruct Hdiv as [Hq Hr].
  rewrite Z.shiftl_mul_pow2 in Hq by lia.
  change (2 ^ 53)%Z with 9007199254740992%Z in Hq.
  assert (q = 9007199254740992%Z) as -> by nia.
  assert (r = 0%Z) as -> by lia.
  replace (new_location (Zpos m) 0) with loc_Exact
    by (unfold new_location, new_location_even, new_location_odd;
        destruct (Z.even (Zpos m)); reflexivity).
  vm_compute. reflexivity.
Qed.

(** X12: a tool whose detected genes are exactly the donated genes of the
    expected transfers (at least one, fewer than 2^53) gets the line
    [1.00 1.00 1.00]. *)
Theorem perfect_detection expected tool genes out :
  genes <> [] ->
  detected_set genes = expected_genes expected ->
  (Z.of_nat (size (detected_set genes)) < 2 ^ 53)%Z ->
  score_tool (exp_set expected) tool genes out =
  (out +:+ tool +:+ tab +:+ "1.00" +:+ tab +:+ "1.00" +:+ tab +:+ "1.00" +:+ nl,
   Ok tt).
Proof.
  intros Hne Heq Hsize. rewrite score_tool_cases by exact Hne.
  assert (Htp : true_positives genes expected = size (detected_set genes)).
  { unfold true_positives. rewrite <- Heq. f_equal. set_solver. }
  assert (Hfp : false_positives genes expected = 0).
  { unfold false_positives. rewrite <- Heq. apply size_empty_iff. set_solver. }
  assert (Hfn : false_negatives genes expected = 0).
  { unfold false_negatives. rewrite <- Heq. apply size_empty_iff. set_solver. }
  assert (Hpos : size (detected_set genes) <> 0).
  { pose proof (detections_positive genes expected Hne). lia. }
  assert (Hp : precision genes expected = float_of_Z 1).
  { unfold precision. rewrite Hfp, Htp, Nat.add_0_r. apply quotient_self. lia. }
  assert (Hr : recall genes expected = float_of_Z 1).
  { unfold recall. rewrite Hfn, Htp, Nat.add_0_r. apply quotient_self. lia. }
  unfold zero_denominator, report_line, f_score. rewrite Hp, Hr, Hfp, Hfn, Htp.
  rewrite Nat.add_0_r. apply Nat.eqb_neq in Hpos. rewrite Hpos. cbn [orb].
  reflexivity.
Qed.

Lemma perfect_detection_witness :
  score_tool (exp_set [("a", "g1", "b", "h1"); ("c", "g2", "d", "h2")])
             "toolX" ["g2"; "g1"] ""
  = ("" +:+ "toolX" +:+ tab +:+ "1.00" +:+ tab +:+ "1.00" +:+ tab +:+ "1.00" +:+ nl,
     Ok tt).
Proof.
  apply perfect_detection.
  - discriminate.
  - vm_compute. reflexivity.
  - vm_compute. reflexivity.
Defined.

(** *** compute_accuracy.py: rows that cannot be read *)




(** *** compute_accuracy.py: reading the expected transfers *)

Lemma re_split_skip_passes alts a s :
  re_split_skip alts (String.length a) (a +:+ s) = re_split_skip alts 0 s.
Proof.
  induction a as [|c a IH]; [destruct s; reflexivity|].
  rewrite append_cons. cbn [String.length re_split_skip]. exact IH.
Qed.

Lemma re_split_skip_not_nil alts k s : re_split_skip alts k s <> [].
Proof.
  revert k. induction s as [|c s IH]; intros k; cbn; [discriminate|].
  destruct k as [|k]; [|apply IH].
  destruct (match_alt alts (String c s)); [discriminate|].
  destruct (re_split_skip alts 0 s); discriminate.
Qed.

(** A separator at the start of the text ends a piece. *)
Lemma re_split_at_separator alts sep rest :
  sep <> "" -> match_alt alts (sep +:+ rest) = Some (String.length sep) ->
  re_split alts (sep +:+ rest) = "" :: re_split alts rest.
Proof.
  intros Hsep Hm. unfold re_split. destruct sep as [|c sep]; [congruence|].
  rewrite append_cons in *. cbn [re_split_skip]. rewrite Hm.
  cbn [String.length Nat.sub]. rewrite Nat.sub_0_r. now rewrite re_split_skip_passes.
Qed.

(** A text in which no separator starts is kept in the current piece. *)
Lemma re_split_field alts a r :
  (forall a1 a2, a = a1 +:+ a2 -> a2 <> "" -> match_alt alts (a2 +:+ r) = None) ->
  exists w ws, re_split alts r = w :: ws /\
               re_split alts (a +:+ r) = (a +:+ w) :: ws.
Proof.
  unfold re_split. induction a as [|c a IH]; intros Hno.
  - destruct (re_split_skip alts 0 r) as [|w ws] eqn:E;
      [now apply re_split_skip_not_nil in E|]. eauto.
  - destruct IH as (w & ws & Hr & Ha).
    { intros a1 a2 -> Ha2. apply (Hno (String c a1) a2); [reflexivity | exact Ha2]. }
    exists w, ws. split; [exact Hr|].
    rewrite append_cons. cbn [re_split_skip].
    rewrite <- append_cons, (Hno "" (String c a)) by (reflexivity || discriminate).
    rewrite Ha. reflexivity.
Qed.

Lemma token_not_space c : isspace c = false -> Ascii.eqb " " c = false.
Proof. destruct (Ascii.eqb_spec " " c) as [<-|]; [discriminate | reflexivity]. Qed.

Lemma token_suffix a1 a2 : token (a1 +:+ a2) = true -> token a2 = true.
Proof.
  induction a1 as [|c a1 IH]; [trivial|]. rewrite append_cons. cbn [token].
  intros H. apply andb_true_iff in H as [_ H]. auto.
Qed.

(** No separator of the log starts inside a field without whitespace, when
    the text after the field does not complete one. *)
Lemma field_no_match a r :
  token a = true -> a <> "" ->
  startswith "gt from organism " r = false ->
  startswith "t from organism " r = false ->
  startswith " from organism " r = false ->
  startswith " now gene " r = false ->
  match_alt transfer_separators (a +:+ r) = None.
Proof.
  intros Ha Hne H1 H2 H3 H4.
  destruct a as [|c1 a]; [congruence|]. clear Hne.
  cbn [token] in Ha. apply andb_true_iff in Ha as [Hc1 Ha].
  apply negb_true_iff in Hc1. pose proof (token_not_space _ Hc1) as Hs1.
  unfold transfer_separators, match_alt. rewrite append_cons.
  assert (Hsp : forall p, startswith (String " " p) (String c1 (a +:+ r)) = false)
    by (intros p; cbn [startswith]; now rewrite Hs1).
  rewrite !Hsp.
  assert (Hcomma : startswith ", now gene " (String c1 (a +:+ r)) = false).
  { cbn [startswith]. destruct (Ascii.eqb "," c1); [|reflexivity].
    destruct a as [|c2 a]; [exact H4|].
    rewrite append_cons. cbn [token] in Ha.
    apply andb_true_iff in Ha as [Hc2 _]. apply negb_true_iff in Hc2.
    cbn [startswith]. now rewrite (token_not_space _ Hc2). }
  rewrite Hcomma.
  assert (Hlgt : startswith "lgt from organism " (String c1 (a +:+ r)) = false).
  { cbn [startswith]. destruct (Ascii.eqb "l" c1); [|reflexivity].
    destruct a as [|c2 a]; [exact H1|].
    rewrite append_cons. cbn [token] in Ha.
    apply andb_true_iff in Ha as [_ Ha].
    cbn [startswith]. destruct (Ascii.eqb "g" c2); [|reflexivity].
    destruct a as [|c3 a]; [exact H2|].
    rewrite append_cons. cbn [token] in Ha.
    apply andb_true_iff in Ha as [_ Ha].
    cbn [startswith]. destruct (Ascii.eqb "t" c3); [|reflexivity].
    destruct a as [|c4 a]; [exact H3|].
    rewrite append_cons. cbn [token] in Ha.
    apply andb_true_iff in Ha as [Hc4 _]. apply negb_true_iff in Hc4.
    cbn [startswith]. now rewrite (token_not_space _ Hc4). }
  now rewrite Hlgt.
Qed.

Lemma re_split_token_field a r :
  token a = true ->
  startswith "gt from organism " r = false ->
  startswith "t from organism " r = false ->
  startswith " from organism " r = false ->
  startswith " now gene " r = false ->
  exists w ws, re_split transfer_separators r = w :: ws /\
               re_split transfer_separators (a +:+ r) = (a +:+ w) :: ws.
Proof.
  intros Ha H1 H2 H3 H4. apply re_split_field.
  intros a1 a2 -> Hne. apply field_no_match; try assumption.
  eapply token_suffix. exact Ha.
Qed.

(** The pieces of a well-formed line of the log. *)
Lemma re_split_transfer donor gene recipient received :
  token donor = true -> token gene = true -> token recipient = true ->
  token received = true ->
  re_split transfer_separators
    ("lgt from organism " +:+ donor +:+ " with gene " +:+ gene +:+
     " to organism " +:+ recipient +:+ ", now gene " +:+ received)
  = [""; donor; gene; recipient; received].
Proof.
  intros Hd Hg Hr Hx.
  rewrite re_split_at_separator by (discriminate || reflexivity).
  destruct (re_split_token_field donor
              (" with gene " +:+ gene +:+ " to organism " +:+ recipient +:+
               ", now gene " +:+ received) Hd)
    as (w1 & ws1 & E1 & ->); try reflexivity.
  rewrite re_split_at_separator in E1 by (discriminate || reflexivity).
  destruct (re_split_token_field gene
              (" to organism " +:+ recipient +:+ ", now gene " +:+ received) Hg)
    as (w2 & ws2 & E2 & E2'); try reflexivity.
  rewrite re_split_at_separator in E2 by (discriminate || reflexivity).
  destruct (re_split_token_field recipient (", now gene " +:+ received) Hr)
    as (w3 & ws3 & E3 & E3'); try reflexivity.
  rewrite re_split_at_separator in E3 by (discriminate || reflexivity).
  destruct (re_split_token_field received "" Hx)
    as (w4 & ws4 & E4 & E4'); try reflexivity.
  rewrite append_empty_r in E4'. cbn in E4. injection E4 as <- <-.
  rewrite append_empty_r in E4'. rewrite E4' in E3. injection E3 as <- <-.
  rewrite append_empty_r in E3'. rewrite E3' in E2. injection E2 as <- <-.
  rewrite append_empty_r in E2'. rewrite E2' in E1. injection E1 as <- <-.
  now rewrite append_empty_r.
Qed.

Lemma rstrip_append a y y' :
  rstrip y = y' -> y' <> "" -> rstrip (a +:+ y) = a +:+ y'.
Proof.
  intros Hy Hne. induction a as [|c a IH]; [exact Hy|].
  rewrite !append_cons. cbn [rstrip]. rewrite IH.
  destruct (a +:+ y') as [|c' r] eqn:E; [|reflexivity].
  destruct a; [rewrite append_empty_l in E; congruence | discriminate].
Qed.

Lemma rstrip_token_nl x :
  token x = true -> x <> "" -> rstrip (x +:+ nl) = x.
Proof.
  induction x as [|c x IH]; [congruence|]. intros Ht _.
  cbn [token] in Ht. apply andb_true_iff in Ht as [Hc Ht].
  apply negb_true_iff in Hc. rewrite append_cons. cbn [rstrip].
  destruct x as [|c' x].
  - cbn. now rewrite Hc.
  - rewrite IH by (assumption || discriminate). reflexivity.
Qed.

(** The line feed after a last field without whitespace is all that
    [strip] removes from a line that starts with a letter. *)
Lemma strip_line c a x :
  isspace c = false -> token x = true -> x <> "" ->
  strip (String c a +:+ x +:+ nl) = String c a +:+ x.
Proof.
  intros Hc Ht Hne. unfold strip. rewrite append_cons.
  cbn [lstrip]. rewrite Hc, <- append_cons.
  apply rstrip_append; [now apply rstrip_token_nl | exact Hne].
Qed.

Lemma expected_transfers_acc f acc :
  fold_left
    (fun expected_transfers line =>
       if contains "lgt from organism " line then
         expected_transfers
           ++ [drop 1 (re_split transfer_separators (strip line))]
       else expected_transfers) f acc
  = acc ++ parse_expected_transfers f.
Proof.
  unfold parse_expected_transfers. revert acc.
  induction f as [|line f IH]; intros acc; cbn [fold_left].
  - now rewrite app_nil_r.
  - rewrite IH. rewrite (IH (if contains _ line then _ else _)).
    destruct (contains _ line); [|reflexivity].
    cbn [app]. now rewrite <- app_assoc.
Qed.

(** X14 ([parse_expected_transfers]).  The log is read line by line: the
    result for two logs one after the other is the two results one after the
    other, and a line without the text "lgt from organism " adds nothing.  A
    line written as "lgt from organism D with gene G to organism R, now gene
    X" and a line feed, with fields free of whitespace and X not empty,
    gives back the tuple (D, G, R, X).  The number of components is not
    checked: a line that stops after the donor gives a tuple of one
    component. *)
Theorem parse_expected_transfers_reads_log :
  (forall f1 f2,
     parse_expected_transfers (f1 ++ f2)
     = parse_expected_transfers f1 ++ parse_expected_transfers f2) /\
  (forall line, contains "lgt from organism " line = false ->
     parse_expected_transfers [line] = []) /\
  (forall donor gene recipient received,
     token donor = true -> token gene = true -> token recipient = true ->
     token received = true -> received <> "" ->
     parse_expected_transfers
       ["lgt from organism " +:+ donor +:+ " with gene " +:+ gene +:+
        " to organism " +:+ recipient +:+ ", now gene " +:+ received +:+ nl]
     = [[donor; gene; recipient; received]]) /\
  (forall donor,
     token donor = true -> donor <> "" ->
     parse_expected_transfers ["lgt from organism " +:+ donor +:+ nl]
     = [[donor]]).
Proof.
  split; [|split; [|split]].
  - intros f1 f2. unfold parse_expected_transfers at 1.
    rewrite fold_left_app. fold (parse_expected_transfers f1).
    apply expected_transfers_acc.
  - intros line H. unfold parse_expected_transfers. cbn [fold_left].
    now rewrite H.
  - intros donor gene recipient received Hd Hg Hr Hx Hne.
    unfold parse_expected_transfers. cbn [fold_left].
    replace (contains "lgt from organism " _) with true
      by (symmetry; apply contains_occurs; exists "";
          eexists; reflexivity).
    assert (Hstrip :
      strip ("lgt from organism " +:+ donor +:+ " with gene " +:+ gene +:+
             " to organism " +:+ recipient +:+ ", now gene " +:+ received
             +:+ nl)
      = "lgt from organism " +:+ donor +:+ " with gene " +:+ gene +:+
        " to organism " +:+ recipient +:+ ", now gene " +:+ received).
    { pose proof (strip_line "l"
        ("gt from organism " +:+ donor +:+ " with gene " +:+ gene +:+
         " to organism " +:+ recipient +:+ ", now gene ") received
        eq_refl Hx Hne) as H.
      rewrite <- !append_cons, !append_assoc in H.
      exact H. }
    rewrite Hstrip, re_split_transfer by assumption. reflexivity.
  - intros donor Hd Hne.
    unfold parse_expected_transfers. cbn [fold_left].
    replace (contains "lgt from organism " _) with true
      by (symmetry; apply contains_occurs; exists "";
          eexists; reflexivity).
    rewrite (strip_line "l" "gt from organism " donor eq_refl Hd Hne).
    rewrite re_split_at_separator by (discriminate || reflexivity).
    destruct (re_split_token_field donor "" Hd)
      as (w & ws & E & E'); try reflexivity.
    rewrite append_empty_r in E'. cbn in E. injection E as <- <-.
    rewrite append_empty_r in E'. rewrite E'. reflexivity.
Qed.

Lemma parse_expected_transfers_reads_log_witness :
  parse_expected_transfers ["Time 0.5: speciation event" +:+ nl] = [] /\
  parse_expected_transfers
    ["lgt from organism SE001 with gene 5 to organism SE002, now gene 12"
     +:+ nl]
  = [["SE001"; "5"; "SE002"; "12"]] /\
  parse_expected_transfers ["lgt from organism SE001" +:+ nl] = [["SE001"]].
Proof.
  destruct parse_expected_transfers_reads_log as (_ & Hskip & Hline & Hshort).
  split; [|split].
  - apply Hskip. reflexivity.
  - apply (Hline "SE001" "5" "SE002" "12"); (reflexivity || discriminate).
  - apply (Hshort "SE001"); (reflexivity || discriminate).
Defined.

(** *** reformat_input.py: the Nexus files *)








Section NexusFacts.

Variable str : TreeNode -> string.




End NexusFacts.


(** *** reformat_input.py: the joined trees *)

Section JoinFacts.

Variable str : TreeNode -> string.

(** X16: [join_trees], and so [reformat_rangerdtl], cuts the last character
    of each Newick text, whatever it is, and ends each with a line feed, the
    species tree first and the gene tree, untrimmed, second.  For texts that
    end with a line feed, as the ones of skbio do, the file is the two texts
    one after the other; an empty text gives an empty line. *)
Theorem join_trees_lines gene_tree species_tree output_tree_fp (fs : files) :
  (forall s c g d,
     str species_tree = s +:+ String c "" ->
     str gene_tree = g +:+ String d "" ->
     reformat_rangerdtl str gene_tree species_tree output_tree_fp fs
     = (<[output_tree_fp := s +:+ nl +:+ g +:+ nl]> fs, Ok tt)) /\
  (forall s g,
     str species_tree = s +:+ nl -> str gene_tree = g +:+ nl ->
     reformat_rangerdtl str gene_tree species_tree output_tree_fp fs
     = (<[output_tree_fp := str species_tree +:+ str gene_tree]> fs, Ok tt)) /\
  (str species_tree = "" -> str gene_tree = "" ->
   reformat_rangerdtl str gene_tree species_tree output_tree_fp fs
   = (<[output_tree_fp := nl +:+ nl]> fs, Ok tt)).
Proof.
  assert (Hcut : forall a c, drop_last 1 (a +:+ String c "") = a)
    by (intros a c; apply (drop_last_append a (String c ""))).
  unfold reformat_rangerdtl, join_trees, write_file.
  split; [|split].
  - intros s c g d -> ->. now rewrite !Hcut.
  - intros s g -> ->.
    pose proof (Hcut s "010"%char) as Hs. pose proof (Hcut g "010"%char) as Hg.
    change (String "010" "") with nl in Hs, Hg.
    now rewrite Hs, Hg, append_assoc.
  - intros -> ->. reflexivity.
Qed.

End JoinFacts.

Lemma join_trees_lines_witness :
  let str := fun t =>
    "(" +:+ String.concat "," (map str_name (tip_names t)) +:+ ");" +:+ nl in
  reformat_rangerdtl str
    (Node None None [Node (Some "sp1 g1") None []; Node (Some "sp2 g2") None []])
    (Node None None [Node (Some "sp1") None []; Node (Some "sp2") None []])
    "out.newick" ∅
  = ({["out.newick" := "(sp1,sp2);" +:+ nl +:+ "(sp1 g1,sp2 g2);" +:+ nl]},
     Ok tt).
Proof.
  cbv zeta.
  apply (proj1 (proj2 (join_trees_lines
           (fun t => "(" +:+ String.concat "," (map str_name (tip_names t))
                     +:+ ");" +:+ nl)
           (Node None None
              [Node (Some "sp1 g1") None []; Node (Some "sp2 g2") None []])
           (Node None None
              [Node (Some "sp1") None []; Node (Some "sp2") None []])
           "out.newick" ∅))
         "(sp1,sp2);" "(sp1 g1,sp2 g2);"); reflexivity.
Defined.
